(** * EmbreeTracer: the light-transport core of [Renderer.cpp]

    A shallow embedding of [src/src/Renderer.cpp] (with the two helpers
    [dot] and [translate] of [src/src/main.cpp] it calls) and the properties
    of it that the design document states.

    The C++ code computes on [float].  Every function below is written once,
    over an interface [Scalar] of the scalar operations the source uses, and
    read at two instances:
    - [Binary32.scalar]: IEEE-754 binary32 with round-to-nearest-even, built
      on the standard library's [SpecFloat]; the four libm functions the
      source calls ([cos], [sin], [tan], [pow]) stay parameters ([Libm]);
    - [Exact.scalar]: the real numbers, i.e. the same code without rounding.
    Properties of the control and data flow are proved for every instance.
    What depends on the values computed is proved on binary32, for every
    libm, from the rounding of [SFmul], [SFdiv] and [SFsqrt].  Exact
    arithmetic supplies closed examples and the geometry of the sampling
    frame. *)

From Stdlib Require Import ZArith List Bool Lia.
From Stdlib Require Import SpecFloat.
From Stdlib Require Import Reals Lra Psatz.
Import ListNotations.

Local Open Scope Z_scope.

(** ** Scalars *)

(** The operations of C++ [float] that [Renderer.cpp] uses.
    [lit m k] is the decimal literal [m * 10^-k] (so [0.5f] is [lit 5 1]);
    [of_uint32] is the conversion [(float)x] of a [uint32_t];
    [fltb a b] is [a < b], and [a > b] is written [fltb b a]. *)
Class Scalar (F : Type) : Type := {
  lit : Z -> nat -> F;
  of_uint32 : Z -> F;
  FLT_MAX : F;
  fadd : F -> F -> F;
  fsub : F -> F -> F;
  fmul : F -> F -> F;
  fdiv : F -> F -> F;
  fltb : F -> F -> bool;
  ffabs : F -> F;
  fsqrt : F -> F
}.

(** The functions of [<cmath>] that are not IEEE-754 operations. *)
Class Libm (F : Type) : Type := {
  fcos : F -> F;
  fsin : F -> F;
  ftan : F -> F;
  fpow : F -> F -> F
}.

Declare Scope F_scope.
Delimit Scope F_scope with fl.
Infix "+" := fadd : F_scope.
Infix "-" := fsub : F_scope.
Infix "*" := fmul : F_scope.
Infix "/" := fdiv : F_scope.

(** [std::max(a, b)] is [(a < b) ? b : a]. *)
Definition fmax {F} `{Scalar F} (a b : F) : F := if fltb a b then b else a.

(** ** Vectors *)

Record vec3 (F : Type) : Type := Vec3 { vx : F; vy : F; vz : F }.
Arguments Vec3 {F} _ _ _.
Arguments vx {F} _.
Arguments vy {F} _.
Arguments vz {F} _.

Section VectorTypes.
Context {F : Type} `{Scalar F} `{Libm F}.
Local Open Scope F_scope.

(** Modelled from the spec: [VectorTypes.h], which declares [vec3] and its
    operators, is not among the sources.  The design document says colours
    are "combined by component-wise addition and multiplication"; the
    operators below are the component-wise ones, and [dot], [cross],
    [length] and [normalize] are the textbook ones, summed left to right. *)
Definition vadd (a b : vec3 F) : vec3 F :=
  Vec3 (vx a + vx b) (vy a + vy b) (vz a + vz b).
Definition vsub (a b : vec3 F) : vec3 F :=
  Vec3 (vx a - vx b) (vy a - vy b) (vz a - vz b).
Definition vmul (a b : vec3 F) : vec3 F :=
  Vec3 (vx a * vx b) (vy a * vy b) (vz a * vz b).
Definition vscale (a : vec3 F) (s : F) : vec3 F :=
  Vec3 (vx a * s) (vy a * s) (vz a * s).
Definition vdiv (a : vec3 F) (s : F) : vec3 F :=
  Vec3 (vx a / s) (vy a / s) (vz a / s).
Definition vpow (a : vec3 F) (e : F) : vec3 F :=
  Vec3 (fpow (vx a) e) (fpow (vy a) e) (fpow (vz a) e).
Definition dot (a b : vec3 F) : F :=
  vx a * vx b + vy a * vy b + vz a * vz b.
Definition cross (a b : vec3 F) : vec3 F :=
  Vec3 (vy a * vz b - vz a * vy b)
       (vz a * vx b - vx a * vz b)
       (vx a * vy b - vy a * vx b).
Definition length (a : vec3 F) : F := fsqrt (dot a a).
Definition normalize (a : vec3 F) : vec3 F := vdiv a (length a).
End VectorTypes.

(** ** Rays, materials and the scene *)

(** [RTC_INVALID_GEOMETRY_ID] is [((unsigned)-1)]. *)
Definition RTC_INVALID_GEOMETRY_ID : Z := 4294967295.

(** The fields of Embree's [RTCRay] that the renderer reads or writes;
    [org] and [dir] are the arrays [org[3]] and [dir[3]]. *)
Record RTCRay (F : Type) : Type := mkRay {
  org : vec3 F;
  dir : vec3 F;
  tnear : F;
  tfar : F;
  time : F;
  mask : Z;
  geomID : Z;
  primID : Z;
  u : F;
  v : F
}.
Arguments mkRay {F} _ _ _ _ _ _ _ _ _ _.
Arguments org {F} _.
Arguments dir {F} _.
Arguments tnear {F} _.
Arguments tfar {F} _.
Arguments time {F} _.
Arguments mask {F} _.
Arguments geomID {F} _.
Arguments primID {F} _.
Arguments u {F} _.
Arguments v {F} _.

(** [Material::DiffuseColor] is an array of three floats. *)
Record Material (F : Type) : Type := mkMaterial { DiffuseColor : vec3 F }.
Arguments mkMaterial {F} _.
Arguments DiffuseColor {F} _.

(** The scene is Embree's: the renderer only calls it.  Each call is taken
    as an arbitrary function of the ray it is given: [rtcIntersect] and
    [rtcOccluded] return the ray as they leave it, [rtcInterpolate2] the
    three floats it writes for ([geomID], [primID], [u], [v]). *)
Record RTCScene (F : Type) : Type := mkScene {
  rtcIntersect : RTCRay F -> RTCRay F;
  rtcOccluded : RTCRay F -> RTCRay F;
  rtcInterpolate2 : Z -> Z -> F -> F -> vec3 F
}.
Arguments mkScene {F} _ _ _.
Arguments rtcIntersect {F} _ _.
Arguments rtcOccluded {F} _ _.
Arguments rtcInterpolate2 {F} _ _ _ _ _.

(** [Materials[i]] for an unsigned [i]: reading past the end of a
    [std::vector] is undefined, hence [None]. *)
Definition material_at {F} (Materials : list (Material F)) (i : Z) : option (Material F) :=
  nth_error Materials (Z.to_nat i).

(** ** The renderer *)

Section Renderer.
Context {F : Type} `{Scalar F} `{Libm F}.
Local Open Scope F_scope.

(** [std::default_random_engine gen; std::uniform_real_distribution<float>
    distr;] at the top of [Trace]: the engine is default-seeded on every
    call, so [distr(gen)] yields one fixed sequence; [distr n] is its [n]-th
    value and the engine's state is the number of values drawn. *)
Variable distr : nat -> F.

Definition WorldGetBackground (ray : RTCRay F) : vec3 F :=
  Vec3 (lit 0 1) (lit 0 1) (lit 0 1).

Definition PI : F := lit 314159265359 11.
Definition EPSILON : F := lit 3 5.
Definition gamma : F := lit 22 1.

(** *** [Trace], the multi-bounce integrator *)

(** The local variables of [Trace] that live across iterations. *)
Record PathState : Type := mkPath {
  st_color : vec3 F;
  st_mask : vec3 F;
  st_ray : RTCRay F;
  st_gen : nat
}.

(** What one iteration of the loop body does: [return], fall through to
    [++bounce], or index [Materials] out of range. *)
Inductive Bounce : Type :=
| Return (c : vec3 F)
| Continue (s : PathState)
| Fault.

(** What a call yields: a colour, or undefined behaviour. *)
Inductive Result : Type :=
| Value (c : vec3 F)
| Undefined.

(** Line 42: the reference axis of the local frame. *)
Definition Trace_axis (w : vec3 F) : vec3 F :=
  if fltb (lit 1 1) (ffabs (vx w))
  then Vec3 (lit 0 1) (lit 10 1) (lit 0 1)
  else Vec3 (lit 10 1) (lit 0 1) (lit 0 1).

(** Lines 36-47, up to the argument of the last [normalize]: the direction
    sampled in the local frame, from the interpolated normal and the two
    values drawn. *)
Definition Trace_sample (normal : vec3 F) (d1 d2 : F) : vec3 F :=
  let rand1 := lit 20 1 * PI * d1 in
  let rand2 := d2 in
  let rand2s := fsqrt rand2 in
  let w := Vec3 (vx normal) (vy normal) (vz normal) in
  let axis := Trace_axis w in
  let u := normalize (cross axis w) in
  let v := cross w u in
  vadd (vadd (vscale (vscale u (fcos rand1)) rand2s)
             (vscale (vscale v (fsin rand1)) rand2s))
       (vscale w (fsqrt (lit 10 1 - rand2))).

(** Line 47: [newdir]. *)
Definition Trace_newdir (normal : vec3 F) (d1 d2 : F) : vec3 F :=
  normalize (Trace_sample normal d1 d2).

(** Lines 58-73: the ray of the next bounce. *)
Definition Trace_next_ray (ray : RTCRay F) (newdir : vec3 F) : RTCRay F :=
  mkRay (Vec3 (vx (org ray) + tfar ray * vx (dir ray) + EPSILON)
              (vy (org ray) + tfar ray * vy (dir ray) + EPSILON)
              (vz (org ray) + tfar ray * vz (dir ray) + EPSILON))
        (Vec3 (vx newdir) (vy newdir) (vz newdir))
        (lit 0 1) FLT_MAX (lit 0 1) 0
        RTC_INVALID_GEOMETRY_ID RTC_INVALID_GEOMETRY_ID
        (u ray) (v ray).

(** Lines 27-73: the body of the [for] loop. *)
Definition Trace_body (scene : RTCScene F) (Materials : list (Material F))
    (s : PathState) : Bounce :=
  let ray := rtcIntersect scene (st_ray s) in
  if geomID ray =? RTC_INVALID_GEOMETRY_ID then
    Return (vadd (st_color s)
                 (vmul (st_mask s) (Vec3 (lit 5 1) (lit 5 1) (lit 5 1))))
  else
    let normal :=
      rtcInterpolate2 scene (geomID ray) (primID ray) (u ray) (v ray) in
    let newdir :=
      Trace_newdir normal (distr (st_gen s)) (distr (S (st_gen s))) in
    let color := vadd (st_color s) (st_mask s) in
    match material_at Materials (geomID ray) with
    | None => Fault
    | Some m =>
        let mask1 := vmul (st_mask s) (DiffuseColor m) in
        let mask2 := vscale mask1 (dot newdir normal) in
        Continue (mkPath color mask2 (Trace_next_ray ray newdir)
                         (S (S (st_gen s))))
    end.

(** Lines 25-76: [for (int bounce = 0; bounce < 8; ++bounce) body; return
    color;].  The result comes with the number of times the body ran;
    [None] only when [fuel] runs out. *)
Fixpoint Trace_loop (scene : RTCScene F) (Materials : list (Material F))
    (fuel : nat) (bounce : Z) (s : PathState) : option (Result * nat) :=
  match fuel with
  | O => None
  | S fuel' =>
      if bounce <? 8 then
        match Trace_body scene Materials s with
        | Return c => Some (Value c, 1%nat)
        | Fault => Some (Undefined, 1%nat)
        | Continue s' =>
            match Trace_loop scene Materials fuel' (bounce + 1) s' with
            | Some (r, n) => Some (r, S n)
            | None => None
            end
        end
      else Some (Value (st_color s), 0%nat)
  end.

(** Lines 19-23: the state [Trace] starts the loop in. *)
Definition Trace_init (ray : RTCRay F) : PathState :=
  mkPath (Vec3 (lit 0 1) (lit 0 1) (lit 0 1))
         (Vec3 (lit 10 1) (lit 10 1) (lit 10 1))
         ray 0%nat.

Definition Trace_run (scene : RTCScene F) (Materials : list (Material F))
    (ray : RTCRay F) : option (Result * nat) :=
  Trace_loop scene Materials 9 0 (Trace_init ray).

Definition Trace (scene : RTCScene F) (Materials : list (Material F))
    (ray : RTCRay F) : option Result :=
  option_map fst (Trace_run scene Materials ray).

(** The state after [k] iterations that all fell through to [++bounce]
    (every query hit, every material was in range). *)
Fixpoint Trace_bounces (scene : RTCScene F) (Materials : list (Material F))
    (k : nat) (s : PathState) : option PathState :=
  match k with
  | O => Some s
  | S k' =>
      match Trace_body scene Materials s with
      | Continue s' => Trace_bounces scene Materials k' s'
      | _ => None
      end
  end.

(** *** The direct-lighting estimator *)

Definition makeRay (org dir : vec3 F) : RTCRay F :=
  mkRay (Vec3 (vx org) (vy org) (vz org))
        (Vec3 (vx dir) (vy dir) (vz dir))
        (lit 0 1) FLT_MAX (lit 0 1) (-1)
        RTC_INVALID_GEOMETRY_ID RTC_INVALID_GEOMETRY_ID
        (lit 0 1) (lit 0 1).

Definition intersectScene (scene : RTCScene F) (ray : RTCRay F)
    : bool * RTCRay F :=
  let ray' := rtcIntersect scene ray in
  if negb (geomID ray' =? RTC_INVALID_GEOMETRY_ID)
  then (true, ray')
  else (false, ray').

Definition shade (Materials : list (Material F)) (ray : RTCRay F)
    : option (vec3 F) :=
  match material_at Materials (geomID ray) with
  | None => None
  | Some m =>
      let color :=
        Vec3 (vx (DiffuseColor m)) (vy (DiffuseColor m)) (vz (DiffuseColor m)) in
      Some (vdiv (vpow color gamma) PI)
  end.

(** Lines 118-120 of [visibility]: the shadow ray, as [rtcOccluded]
    receives it. *)
Definition visibility_ray (o d : vec3 F) : RTCRay F :=
  let shadowRay := makeRay o d in
  mkRay (org shadowRay) (dir shadowRay) (lit 1 3) (lit 10 1)
        (time shadowRay) (mask shadowRay) (geomID shadowRay)
        (primID shadowRay) (u shadowRay) (v shadowRay).

Definition visibility (scene : RTCScene F) (o d : vec3 F) : F :=
  let shadowRay := rtcOccluded scene (visibility_ray o d) in
  if negb (geomID shadowRay =? 0) then lit 10 1 else lit 0 1.

Definition Q : vec3 F := Vec3 (lit 0 1) (lit 14 1) (lit 0 1).

Definition traceRay (scene : RTCScene F) (Materials : list (Material F))
    (ray : RTCRay F) : option (vec3 F) * RTCRay F :=
  let outgoing := WorldGetBackground ray in
  let (hit, ray) := intersectScene scene ray in
  if hit then
    let P := Vec3 (vx (org ray) + vx (dir ray) * tfar ray)
                  (vy (org ray) + vy (dir ray) * tfar ray)
                  (vz (org ray) + vz (dir ray) * tfar ray) in
    let toLight := vsub Q P in
    let Wi := normalize toLight in
    let N := rtcInterpolate2 scene (geomID ray) (primID ray) (u ray) (v ray) in
    let N := normalize N in
    let Power := Vec3 (lit 10 1) (lit 10 1) (lit 10 1) in
    let distance := length toLight in
    let Li := vdiv Power (distance * distance) in
    match shade Materials ray with
    | None => (None, ray)
    | Some sh =>
        (Some (vscale (vscale (vmul Li sh) (fmax (lit 0 1) (dot N Wi)))
                      (visibility scene P toLight)), ray)
    end
  else (Some outgoing, ray).

Definition pathTraceRay (scene : RTCScene F) (Materials : list (Material F))
    (ray : RTCRay F) : option (vec3 F) * RTCRay F :=
  let outgoing := WorldGetBackground ray in
  let (hit, ray) := intersectScene scene ray in
  if hit then
    let P := Vec3 (vx (org ray) + vx (dir ray) * tfar ray)
                  (vy (org ray) + vy (dir ray) * tfar ray)
                  (vz (org ray) + vz (dir ray) * tfar ray) in
    let toLight := vsub Q P in
    let Wi := normalize toLight in
    let N := rtcInterpolate2 scene (geomID ray) (primID ray) (u ray) (v ray) in
    let N := normalize N in
    let Power := Vec3 (lit 10 1) (lit 10 1) (lit 10 1) in
    let distance := length toLight in
    let Li := vdiv Power (distance * distance) in
    match shade Materials ray with
    | None => (None, ray)
    | Some sh =>
        (Some (vscale (vscale (vmul Li sh) (fmax (lit 0 1) (dot N Wi)))
                      (visibility scene P toLight)), ray)
    end
  else (Some outgoing, ray).

(** *** The camera *)

(** [dot(const float row[4], vec3 v)] of [main.cpp]. *)
Definition dot_row (row : F * F * F * F) (p : vec3 F) : F :=
  let '(r0, r1, r2, r3) := row in
  r0 * vx p + r1 * vy p + r2 * vz p + r3 * lit 10 1.

(** [translate(float matrix[4][4], const vec3&)] of [main.cpp]: it
    overwrites the last column of the first three rows. *)
Definition translate
    (matrix : (F * F * F * F) * (F * F * F * F) * (F * F * F * F) * (F * F * F * F))
    (translation : vec3 F) :=
  let '(m0, m1, m2, m3) := matrix in
  let '(a0, a1, a2, _) := m0 in
  let '(b0, b1, b2, _) := m1 in
  let '(c0, c1, c2, _) := m2 in
  ((a0, a1, a2, vx translation),
   (b0, b1, b2, vy translation),
   (c0, c1, c2, vz translation),
   m3).

Definition makeCameraRay (x y width height : Z) : RTCRay F :=
  let pixelNDCX := (of_uint32 x + lit 5 1) / of_uint32 width in
  let pixelNDCY := (of_uint32 y + lit 5 1) / of_uint32 height in
  let fovAngle := (lit 345159 4 / lit 20 1) * (PI / lit 1800 1) in
  let fov := ftan fovAngle in
  let aspectRatio := of_uint32 width / of_uint32 height in
  let Px := (lit 20 1 * pixelNDCX - lit 10 1) * aspectRatio * fov in
  let Py := (lit 10 1 - lit 20 1 * pixelNDCY) * fov in
  let rayP := Vec3 Px Py (lit (-10) 1) in
  let origin := Vec3 (lit 0 1) (lit 0 1) (lit 0 1) in
  let CameraToWorld :=
    ((lit 10 1, lit 0 1, lit 0 1, lit 0 1),
     (lit 0 1, lit 10 1, lit 0 1, lit 0 1),
     (lit 0 1, lit 0 1, lit 10 1, lit 0 1),
     (lit 0 1, lit 0 1, lit 0 1, lit 10 1)) in
  let CameraToWorld :=
    translate CameraToWorld (Vec3 (lit 0 1) (lit 8 1) (lit 45 1)) in
  let '(row0, row1, row2, _) := CameraToWorld in
  let rayWorldOrigin :=
    Vec3 (dot_row row0 origin) (dot_row row1 origin) (dot_row row2 origin) in
  let rayPWorld :=
    Vec3 (dot_row row0 rayP) (dot_row row1 rayP) (dot_row row2 rayP) in
  let rayWorldDir :=
    Vec3 (vx rayPWorld - vx rayWorldOrigin)
         (vy rayPWorld - vy rayWorldOrigin)
         (vz rayPWorld - vz rayWorldOrigin) in
  makeRay rayWorldOrigin rayWorldDir.

End Renderer.

(** ** [makeCameraRay], statement by statement *)

Section CameraStore.
Context {F : Type} `{Scalar F} `{Libm F}.
Local Open Scope F_scope.

(** A [float[4][4]], row by row. *)
Definition Matrix : Type :=
  (F * F * F * F) * (F * F * F * F) * (F * F * F * F) * (F * F * F * F).

(** What a call of [makeCameraRay] could read besides its four arguments,
    or write: the light [Q], the one object at file scope of [Renderer.cpp]
    that is not [const], and the memory of its automatic array
    [CameraToWorld], which holds whatever earlier calls left there until
    the initialiser runs. *)
Record Store : Type := mkStore {
  store_Q : vec3 F;
  store_CameraToWorld : Matrix
}.

(** Line 187: [float CameraToWorld[4][4]{ ... }], all sixteen initialisers
    given. *)
Definition init_CameraToWorld (s : Store) : Store :=
  mkStore (store_Q s)
          ((lit 10 1, lit 0 1, lit 0 1, lit 0 1),
           (lit 0 1, lit 10 1, lit 0 1, lit 0 1),
           (lit 0 1, lit 0 1, lit 10 1, lit 0 1),
           (lit 0 1, lit 0 1, lit 0 1, lit 10 1)).

(** Line 193: [translate(CameraToWorld, t)].  The array is passed as a
    pointer: the callee writes the caller's object. *)
Definition translate_CameraToWorld (translation : vec3 F) (s : Store) : Store :=
  mkStore (store_Q s) (translate (store_CameraToWorld s) translation).

(** [makeCameraRay] as a transition of the store: the ray it returns and
    the store it leaves. *)
Definition makeCameraRay_in (x y width height : Z) (s : Store)
    : RTCRay F * Store :=
  let pixelNDCX := (of_uint32 x + lit 5 1) / of_uint32 width in
  let pixelNDCY := (of_uint32 y + lit 5 1) / of_uint32 height in
  let fovAngle := (lit 345159 4 / lit 20 1) * (PI / lit 1800 1) in
  let fov := ftan fovAngle in
  let aspectRatio := of_uint32 width / of_uint32 height in
  let Px := (lit 20 1 * pixelNDCX - lit 10 1) * aspectRatio * fov in
  let Py := (lit 10 1 - lit 20 1 * pixelNDCY) * fov in
  let rayP := Vec3 Px Py (lit (-10) 1) in
  let origin := Vec3 (lit 0 1) (lit 0 1) (lit 0 1) in
  let s := init_CameraToWorld s in
  let s := translate_CameraToWorld (Vec3 (lit 0 1) (lit 8 1) (lit 45 1)) s in
  let '(row0, row1, row2, _) := store_CameraToWorld s in
  let rayWorldOrigin :=
    Vec3 (dot_row row0 origin) (dot_row row1 origin) (dot_row row2 origin) in
  let rayPWorld :=
    Vec3 (dot_row row0 rayP) (dot_row row1 rayP) (dot_row row2 rayP) in
  let rayWorldDir :=
    Vec3 (vx rayPWorld - vx rayWorldOrigin)
         (vy rayPWorld - vy rayWorldOrigin)
         (vz rayPWorld - vz rayWorldOrigin) in
  (makeRay rayWorldOrigin rayWorldDir, s).

End CameraStore.

(** ** The two arithmetics *)

(** IEEE-754 binary32, round to nearest even. *)
Module Binary32.

Definition prec : Z := 24.
Definition emax : Z := 128.

(** The integer [z] as an unrounded float. *)
Definition exact (z : Z) : spec_float :=
  match z with
  | Z0 => S754_zero false
  | Zpos p => S754_finite false p 0
  | Zneg p => S754_finite true p 0
  end.

(** A decimal literal with the suffix [f]: the binary32 value nearest to
    [m / 10^k]. *)
Definition literal (m : Z) (k : nat) : spec_float :=
  SFdiv prec emax (exact m) (exact (10 ^ Z.of_nat k)).

Definition infinity : spec_float := S754_infinity false.

#[global] Instance scalar : Scalar spec_float := {|
  lit := literal;
  of_uint32 := fun z => binary_normalize prec emax z 0 false;
  FLT_MAX := S754_finite false 16777215 104;
  fadd := SFadd prec emax;
  fsub := SFsub prec emax;
  fmul := SFmul prec emax;
  fdiv := SFdiv prec emax;
  fltb := SFltb;
  ffabs := SFabs;
  fsqrt := SFsqrt prec emax
|}.

(** [a >= b] on floats: false as soon as one side is NaN. *)
Definition geb (a b : spec_float) : bool := SFleb b a.

(** The floats that are a zero of either sign, or NaN. *)
Definition zero_or_nan (x : spec_float) : Prop :=
  x = S754_zero false \/ x = S754_zero true \/ x = S754_nan.

(** A zero of either sign. *)
Definition is_zero (x : spec_float) : Prop :=
  x = S754_zero false \/ x = S754_zero true.

(** [0.0f < x]: false for the zeros, the negative numbers and NaN. *)
Definition is_positive (x : spec_float) : Prop :=
  SFltb (S754_zero false) x = true.

(** [x] is a positive normal number of the binade [k]:
    [2^(k-1) <= x < 2^k], with a mantissa of exactly 24 bits. *)
Definition normal (x : spec_float) (k : Z) : Prop :=
  exists (m : positive) (e : Z),
    x = S754_finite false m e /\ Z.log2 (Zpos m) = 23 /\ k = 24 + e.



(** The functions of [<cmath>] at the arguments where C fixes their value
    exactly (Annex F): [cos(+-0) = 1], [sin(+-0) = +-0], [tan(+-0) = +-0],
    [pow(1, y) = 1] and [pow(+-0, y) = +0] for [y > 0]; NaN stands for the
    values it does not fix.  It serves the closed examples only: the
    theorems hold for every [Libm spec_float]. *)
Definition libm_exact_points : Libm spec_float := {|
  fcos := fun x =>
    match x with
    | S754_zero _ => S754_finite false 8388608 (-23)
    | _ => S754_nan
    end;
  fsin := fun x => match x with S754_zero s => S754_zero s | _ => S754_nan end;
  ftan := fun x => match x with S754_zero s => S754_zero s | _ => S754_nan end;
  fpow := fun x y =>
    if SFeqb x (S754_finite false 8388608 (-23))
    then S754_finite false 8388608 (-23)
    else match x with
         | S754_zero _ =>
             if SFltb (S754_zero false) y then S754_zero false else S754_nan
         | _ => S754_nan
         end
|}.

End Binary32.

(** The real numbers: the same operations without rounding. *)
Module Exact.

Definition literal (m : Z) (k : nat) : R :=
  (IZR m / IZR (10 ^ Z.of_nat k))%R.

Definition ltb (a b : R) : bool := if Rlt_dec a b then true else false.

(** [pow(x, y)] for the bases the renderer has, [x >= 0], and a positive
    exponent: [0] at [0] and [exp (y * ln x)] above it. *)
Definition pow (x y : R) : R :=
  if Req_dec_T x 0 then 0%R else Rpower x y.

#[global] Instance scalar : Scalar R := {|
  lit := literal;
  of_uint32 := IZR;
  FLT_MAX := IZR (16777215 * 2 ^ 104);
  fadd := Rplus;
  fsub := Rminus;
  fmul := Rmult;
  fdiv := Rdiv;
  fltb := ltb;
  ffabs := Rabs;
  fsqrt := sqrt
|}.

#[global] Instance libm : Libm R := {|
  fcos := cos;
  fsin := sin;
  ftan := tan;
  fpow := pow
|}.

End Exact.

(** ** Scenes used as closed examples *)

Section Fixtures.
Context {F : Type} `{Scalar F}.

(** A hit on surface [0], at distance [1.0]. *)
Definition hit_surface0 (r : RTCRay F) : RTCRay F :=
  mkRay (org r) (dir r) (tnear r) (lit 10 1) (time r) (mask r) 0 0
        (lit 25 2) (lit 25 2).

(** Occlusion, as Embree 2 reports it: [geomID] becomes [0]. *)
Definition occlude (r : RTCRay F) : RTCRay F :=
  mkRay (org r) (dir r) (tnear r) (tfar r) (time r) (mask r) 0
        (primID r) (u r) (v r).

(** Every ray hits surface [0]; the normal there is [n]; nothing is
    occluded. *)
Definition scene_closed (n : vec3 F) : RTCScene F :=
  mkScene hit_surface0 (fun r => r) (fun _ _ _ _ => n).

(** Only rays with the camera's mask ([-1], as [makeRay] sets it) hit; the
    rays [Trace] builds for later bounces carry mask [0] and miss. *)
Definition scene_floor (n : vec3 F) : RTCScene F :=
  mkScene (fun r => if mask r =? -1 then hit_surface0 r else r)
          (fun r => r) (fun _ _ _ _ => n).

(** As [scene_floor], with an occluder on every shadow segment. *)
Definition scene_floor_shadowed (n : vec3 F) : RTCScene F :=
  mkScene (fun r => if mask r =? -1 then hit_surface0 r else r)
          occlude (fun _ _ _ _ => n).


Definition world_up : vec3 F := Vec3 (lit 0 1) (lit 10 1) (lit 0 1).
Definition world_right : vec3 F := Vec3 (lit 10 1) (lit 0 1) (lit 0 1).
Definition world_down : vec3 F := Vec3 (lit 0 1) (lit (-10) 1) (lit 0 1).
Definition black : Material F := mkMaterial (Vec3 (lit 0 1) (lit 0 1) (lit 0 1)).
Definition white : Material F := mkMaterial (Vec3 (lit 10 1) (lit 10 1) (lit 10 1)).
Definition grey80 : Material F := mkMaterial (Vec3 (lit 8 1) (lit 8 1) (lit 8 1)).

(** As [scene_floor] with the normal [(0, 1, 0)], the surface being
    [2^100] away: the square of the distance to the light overflows. *)
Definition scene_floor_far : RTCScene spec_float :=
  mkScene (fun r => if mask r =? -1
                    then mkRay (org r) (dir r) (tnear r)
                               (S754_finite false 8388608 77)
                               (time r) (mask r) 0 0 (u r) (v r)
                    else r)
          (fun r => r)
          (fun _ _ _ _ => Vec3 (S754_zero false)
                               (S754_finite false 8388608 (-23))
                               (S754_zero false)).

(** The normal [(2, 2^-149, 0)]: its upward component is the smallest
    positive float. *)
Definition grazing_normal : vec3 spec_float :=
  Vec3 (S754_finite false 8388608 (-22)) (S754_finite false 1 (-149))
       (S754_zero false).

(** A ray from [(0, 1, 0)] straight down. *)
Definition ray_down : RTCRay F :=
  mkRay (Vec3 (lit 0 1) (lit 10 1) (lit 0 1))
        (Vec3 (lit 0 1) (lit (-10) 1) (lit 0 1))
        (lit 0 1) FLT_MAX (lit 0 1) (-1)
        RTC_INVALID_GEOMETRY_ID RTC_INVALID_GEOMETRY_ID (lit 0 1) (lit 0 1).

End Fixtures.

(** ** The frame driver and the test kernel *)

Section FrameDriver.
Context {F : Type} `{Scalar F} `{Libm F}.
Local Open Scope F_scope.

(** Modelled from the spec: [PPMImage.h] is not among the sources; the
    design document calls the buffer "written once per pixel, never read by
    the core".  A frame is the list of the calls
    [Color.SetPixel(x, y, Lo.x, Lo.y, Lo.z)] in the order they are made, or
    undefined behaviour when [pathTraceRay] indexes [Materials] out of
    range. *)
Inductive Frame : Type :=
| Pixels (calls : list (Z * Z * vec3 F))
| FrameUndefined.

(** [++x] on a [uint32_t]. *)
Definition uint32_succ (x : Z) : Z := (x + 1) mod 4294967296.

(** Lines 214-219 of [traceImage]: the loop over [x], from [x] on, for the
    row [y]. *)
Fixpoint traceImage_row (scene : RTCScene F) (Materials : list (Material F))
    (width height y : Z) (fuel : nat) (x : Z) (calls : list (Z * Z * vec3 F))
    : option Frame :=
  match fuel with
  | O => None
  | S fuel' =>
      if x <? width then
        let cameraRay := makeCameraRay x y width height in
        match fst (pathTraceRay scene Materials cameraRay) with
        | None => Some FrameUndefined
        | Some Lo =>
            traceImage_row scene Materials width height y fuel'
                           (uint32_succ x) (calls ++ [(x, y, Lo)])
        end
      else Some (Pixels calls)
  end.

(** Lines 212-220: the loop over [y], from [y] on. *)
Fixpoint traceImage_rows (scene : RTCScene F) (Materials : list (Material F))
    (width height : Z) (fuel : nat) (y : Z) (calls : list (Z * Z * vec3 F))
    : option Frame :=
  match fuel with
  | O => None
  | S fuel' =>
      if y <? height then
        match traceImage_row scene Materials width height y
                             (S (Z.to_nat width)) 0 calls with
        | Some (Pixels calls') =>
            traceImage_rows scene Materials width height fuel'
                            (uint32_succ y) calls'
        | other => other
        end
      else Some (Pixels calls)
  end.

(** [traceImage], for an image of [width] by [height] pixels; [None] only
    when the fuel runs out. *)
Definition traceImage (scene : RTCScene F) (Materials : list (Material F))
    (width height : Z) : option Frame :=
  traceImage_rows scene Materials width height (S (Z.to_nat height)) 0 [].

(** The radiance [traceImage] computes for the pixel [(x, y)]. *)
Definition pixel_radiance (scene : RTCScene F) (Materials : list (Material F))
    (width height x y : Z) : option (vec3 F) :=
  fst (pathTraceRay scene Materials (makeCameraRay x y width height)).

(** Every surface the scene reports has a material: the invariant
    [Meshes.size() == Materials.size()] that [main] asserts. *)
Definition materials_cover (scene : RTCScene F) (Materials : list (Material F))
    : Prop :=
  forall r : RTCRay F,
    geomID (rtcIntersect scene r) = RTC_INVALID_GEOMETRY_ID \/
    material_at Materials (geomID (rtcIntersect scene r)) <> None.

(** The kernel [simple] of the ISPC file, on one element: [3.] is a
    [float] literal in ISPC. *)
Definition simple_elem (v : F) : F :=
  if fltb v (lit 30 1) then v * v else fsqrt v.

(** [a[i] = x]; writing past the end is undefined, hence [None]. *)
Fixpoint array_set (a : list F) (i : nat) (x : F) : option (list F) :=
  match a, i with
  | [], _ => None
  | _ :: a', O => Some (x :: a')
  | y :: a', S i' =>
      match array_set a' i' x with
      | Some b => Some (y :: b)
      | None => None
      end
  end.

(** [foreach (index = index ... index + n)] of [simple]: each pass reads
    [vin[index]] and writes [vout[index]]. *)
Fixpoint simple_from (n : nat) (index : nat) (vin vout : list F)
    : option (list F) :=
  match n with
  | O => Some vout
  | S n' =>
      match nth_error vin index with
      | None => None
      | Some v =>
          match array_set vout index (simple_elem v) with
          | None => None
          | Some vout' => simple_from n' (S index) vin vout'
          end
      end
  end.

(** [simple(vin, vout, count)]: the array [vout] as the call leaves it; a
    [count] that is not positive gives an empty range. *)
Definition simple (vin vout : list F) (count : Z) : option (list F) :=
  simple_from (Z.to_nat count) 0 vin vout.

(** Lines 124-125 of [main]: the arrays handed to the kernel. *)
Definition inFloats : list F :=
  [lit 10 1; lit 20 1; lit 30 1; lit 40 1; lit 50 1].
Definition outFloats : list F :=
  [lit 0 1; lit 0 1; lit 0 1; lit 0 1; lit 0 1].

End FrameDriver.

(** * Properties *)

(** ** The bounce loop, in every arithmetic *)

Section TraceLoop.
Context {F : Type} `{Scalar F} `{Libm F}.
Variable distr : nat -> F.
Variable scene : RTCScene F.
Variable Materials : list (Material F).

Local Abbreviation body := (Trace_body distr scene Materials).
Local Abbreviation loop := (Trace_loop distr scene Materials).
Local Abbreviation bounces := (Trace_bounces distr scene Materials).

(** With fuel for the remaining iterations the loop returns, and the body
    runs at most [8 - bounce] times. *)
Lemma Trace_loop_returns (fuel : nat) :
  forall bounce s,
    Z.max 0 (8 - bounce) < Z.of_nat fuel ->
    exists r n, loop fuel bounce s = Some (r, n) /\ Z.of_nat n <= Z.max 0 (8 - bounce).
Proof.
  induction fuel as [|fuel IH]; intros bounce s Hf; [lia|].
  cbn [Trace_loop].
  destruct (bounce <? 8) eqn:Hlt.
  - apply Z.ltb_lt in Hlt.
    destruct (body s) as [c|s'|].
    + exists (Value c), 1%nat. split; [reflexivity|lia].
    + destruct (IH (bounce + 1) s') as (r & n & Hrun & Hn); [lia|].
      rewrite Hrun. exists r, (S n). split; [reflexivity|lia].
    + exists Undefined, 1%nat. split; [reflexivity|lia].
  - exists (Value (st_color s)), 0%nat. split; [reflexivity|lia].
Qed.

(** After [k] iterations that fell through, the loop goes on from the state
    they left, [k] iterations later. *)
Lemma Trace_loop_after_bounces (k : nat) :
  forall fuel bounce s sk,
    bounce + Z.of_nat k <= 8 ->
    bounces k s = Some sk ->
    loop (k + fuel) bounce s =
    match loop fuel (bounce + Z.of_nat k) sk with
    | Some (r, n) => Some (r, (k + n)%nat)
    | None => None
    end.
Proof.
  induction k as [|k IH]; intros fuel bounce s sk Hb Hk.
  - cbn in Hk. injection Hk as <-. cbn [Nat.add].
    replace (bounce + Z.of_nat 0) with bounce by lia.
    destruct (loop fuel bounce s) as [[r n]|]; reflexivity.
  - cbn [Trace_bounces] in Hk. cbn [Nat.add Trace_loop].
    assert (Hlt : (bounce <? 8) = true) by (apply Z.ltb_lt; lia).
    rewrite Hlt.
    destruct (body s) as [c|s'|]; try discriminate.
    rewrite (IH fuel (bounce + 1) s' sk) by (assumption || lia).
    replace (bounce + 1 + Z.of_nat k) with (bounce + Z.of_nat (S k)) by lia.
    destruct (loop fuel (bounce + Z.of_nat (S k)) sk) as [[r n]|]; reflexivity.
Qed.

(** A query that hits, on a surface with a material, falls through. *)
Lemma Trace_body_hit (s : PathState) (m : Material F) :
  geomID (rtcIntersect scene (st_ray s)) <> RTC_INVALID_GEOMETRY_ID ->
  material_at Materials (geomID (rtcIntersect scene (st_ray s))) = Some m ->
  let ray := rtcIntersect scene (st_ray s) in
  let normal := rtcInterpolate2 scene (geomID ray) (primID ray) (u ray) (v ray) in
  let newdir := Trace_newdir normal (distr (st_gen s)) (distr (S (st_gen s))) in
  body s =
  Continue (mkPath (vadd (st_color s) (st_mask s))
                   (vscale (vmul (st_mask s) (DiffuseColor m)) (dot newdir normal))
                   (Trace_next_ray ray newdir)
                   (S (S (st_gen s)))).
Proof.
  intros Hhit Hm. cbv zeta. unfold Trace_body.
  apply Z.eqb_neq in Hhit. rewrite Hhit, Hm. reflexivity.
Qed.

(** A query that misses returns. *)
Lemma Trace_body_miss (s : PathState) :
  geomID (rtcIntersect scene (st_ray s)) = RTC_INVALID_GEOMETRY_ID ->
  body s =
  Return (vadd (st_color s) (vmul (st_mask s) (Vec3 (lit 5 1) (lit 5 1) (lit 5 1)))).
Proof.
  intros Hmiss. unfold Trace_body. rewrite Hmiss, Z.eqb_refl. reflexivity.
Qed.

(** An iteration whose query misses is the last one. *)
Lemma Trace_loop_miss (fuel : nat) (bounce : Z) (s : PathState) :
  bounce < 8 ->
  geomID (rtcIntersect scene (st_ray s)) = RTC_INVALID_GEOMETRY_ID ->
  loop (S fuel) bounce s =
  Some (Value (vadd (st_color s)
                    (vmul (st_mask s) (Vec3 (lit 5 1) (lit 5 1) (lit 5 1)))),
        1%nat).
Proof.
  intros Hb Hmiss. cbn [Trace_loop].
  apply Z.ltb_lt in Hb. rewrite Hb, (Trace_body_miss s Hmiss). reflexivity.
Qed.

(** The body returns only on a miss, and faults only on a hit whose
    surface has no material. *)
Lemma Trace_body_exits (s : PathState) :
  (forall c, body s = Return c ->
             geomID (rtcIntersect scene (st_ray s)) = RTC_INVALID_GEOMETRY_ID) /\
  (body s = Fault ->
   geomID (rtcIntersect scene (st_ray s)) <> RTC_INVALID_GEOMETRY_ID /\
   material_at Materials (geomID (rtcIntersect scene (st_ray s))) = None).
Proof.
  unfold Trace_body.
  destruct (geomID (rtcIntersect scene (st_ray s)) =? RTC_INVALID_GEOMETRY_ID)
    eqn:Hid.
  - apply Z.eqb_eq in Hid. split; [intros c _; exact Hid|discriminate].
  - apply Z.eqb_neq in Hid.
    destruct (material_at Materials (geomID (rtcIntersect scene (st_ray s))));
      split; try discriminate.
    intros _. split; [exact Hid|reflexivity].
Qed.

(** A run that stops short of the cap stopped in an iteration whose query
    missed or whose surface has no material. *)
Lemma Trace_loop_early_exit (fuel : nat) :
  forall bounce s r n,
    loop fuel bounce s = Some (r, n) ->
    Z.of_nat n < 8 - bounce ->
    exists k sk,
      n = S k /\ bounces k s = Some sk /\
      (geomID (rtcIntersect scene (st_ray sk)) = RTC_INVALID_GEOMETRY_ID \/
       material_at Materials (geomID (rtcIntersect scene (st_ray sk))) = None).
Proof.
  induction fuel as [|fuel IH]; intros bounce s r n Hrun Hn; [discriminate|].
  cbn [Trace_loop] in Hrun.
  destruct (bounce <? 8) eqn:Hlt.
  - destruct (body s) as [c|s'|] eqn:Hbody.
    + injection Hrun as <- <-. exists 0%nat, s. split; [reflexivity|].
      split; [reflexivity|]. left. exact (proj1 (Trace_body_exits s) c Hbody).
    + destruct (loop fuel (bounce + 1) s') as [[r' n']|] eqn:Hrest;
        [|discriminate].
      injection Hrun as <- <-.
      destruct (IH (bounce + 1) s' r' n' Hrest) as (k & sk & -> & Hk & Hexit);
        [lia|].
      exists (S k), sk. split; [reflexivity|]. split; [|exact Hexit].
      cbn [Trace_bounces]. rewrite Hbody. exact Hk.
    + injection Hrun as <- <-. exists 0%nat, s. split; [reflexivity|].
      split; [reflexivity|]. right. exact (proj2 (proj2 (Trace_body_exits s) Hbody)).
  - injection Hrun as <- <-. apply Z.ltb_ge in Hlt. lia.
Qed.

(** With the fuel [Trace] gives it the loop never runs dry. *)
Lemma Trace_run_returns (ray : RTCRay F) :
  exists r n, Trace_run distr scene Materials ray = Some (r, n) /\ (n <= 8)%nat.
Proof.
  destruct (Trace_loop_returns 9 0 (Trace_init ray)) as (r & n & Hrun & Hn); [lia|].
  exists r, n. split; [exact Hrun|lia].
Qed.

(** C2. The loop of [Trace] runs its body at most 8 times, for every scene,
    material table and ray, and [Trace] returns.  When all 8 iterations fall
    through, which is the case when every query hits a surface that has a
    material, it returns the colour accumulated by then.  It stops earlier
    only in an iteration whose query misses (or whose surface has no
    material, which is undefined behaviour): nothing in the loop looks at
    the throughput [mask]. *)
Theorem Trace_at_most_8_bounces (ray : RTCRay F) :
  (exists r n, Trace_run distr scene Materials ray = Some (r, n) /\ (n <= 8)%nat) /\
  (forall s8,
     bounces 8 (Trace_init ray) = Some s8 ->
     Trace_run distr scene Materials ray = Some (Value (st_color s8), 8%nat)) /\
  ((forall r, geomID (rtcIntersect scene r) <> RTC_INVALID_GEOMETRY_ID /\
              material_at Materials (geomID (rtcIntersect scene r)) <> None) ->
   exists s8, bounces 8 (Trace_init ray) = Some s8) /\
  (forall r n,
     Trace_run distr scene Materials ray = Some (r, n) -> (n < 8)%nat ->
     exists k sk,
       n = S k /\ bounces k (Trace_init ray) = Some sk /\
       (geomID (rtcIntersect scene (st_ray sk)) = RTC_INVALID_GEOMETRY_ID \/
        material_at Materials (geomID (rtcIntersect scene (st_ray sk))) = None)).
Proof.
  split; [apply Trace_run_returns|split; [|split]].
  - intros s8 H8. unfold Trace_run.
    change 9%nat with (8 + 1)%nat.
    rewrite (Trace_loop_after_bounces 8 1 0 (Trace_init ray) s8) by (assumption || lia).
    reflexivity.
  - intros Hall.
    assert (Hstep : forall s, exists s', body s = Continue s').
    { intros s. destruct (Hall (st_ray s)) as [Hhit Hmat].
      destruct (material_at Materials (geomID (rtcIntersect scene (st_ray s))))
        as [m|] eqn:Hm; [|congruence].
      eexists. apply (Trace_body_hit s m Hhit Hm). }
    assert (Hk : forall k s, exists sk, bounces k s = Some sk).
    { induction k as [|k IH]; intros s; cbn [Trace_bounces].
      - eexists; reflexivity.
      - destruct (Hstep s) as [s' ->]. apply IH. }
    apply Hk.
  - intros r n Hrun Hn.
    apply (Trace_loop_early_exit 9 0 (Trace_init ray) r n Hrun). lia.
Qed.

(** C3. Whatever number [k < 8] of bounces came before, when the query of
    the next one reports no hit [Trace] returns at once, and what it returns
    is [color + mask * (0.5, 0.5, 0.5)] for the [color] and [mask] it had
    reached. *)
Theorem Trace_miss_returns_background (ray : RTCRay F) (k : nat) (s : @PathState F) :
  (k < 8)%nat ->
  bounces k (Trace_init ray) = Some s ->
  geomID (rtcIntersect scene (st_ray s)) = RTC_INVALID_GEOMETRY_ID ->
  Trace_run distr scene Materials ray =
    Some (Value (vadd (st_color s)
                      (vmul (st_mask s) (Vec3 (lit 5 1) (lit 5 1) (lit 5 1)))),
          S k) /\
  Trace distr scene Materials ray =
    Some (Value (vadd (st_color s)
                      (vmul (st_mask s) (Vec3 (lit 5 1) (lit 5 1) (lit 5 1))))).
Proof.
  intros Hk Hs Hmiss.
  assert (Hrun : Trace_run distr scene Materials ray =
    Some (Value (vadd (st_color s)
                      (vmul (st_mask s) (Vec3 (lit 5 1) (lit 5 1) (lit 5 1)))),
          S k)).
  { unfold Trace_run.
    replace 9%nat with (k + S (8 - k))%nat by lia.
    rewrite (Trace_loop_after_bounces k (S (8 - k)) 0 (Trace_init ray) s)
      by (assumption || lia).
    rewrite (Trace_loop_miss (8 - k) (0 + Z.of_nat k) s) by (assumption || lia).
    f_equal. f_equal. lia. }
  split; [exact Hrun|].
  unfold Trace. rewrite Hrun. reflexivity.
Qed.

(** C1. In every bounce that hits, [color] receives the [mask] as it stood,
    and only then is [mask] multiplied by the diffuse colour and by
    [dot(newdir, normal)].  Hence a ray whose first hit has diffuse colour
    [C] and whose second query misses yields
    [mask0 + (mask0 * C * cosTheta) * (0.5, 0.5, 0.5)], where [mask0] is
    [(1, 1, 1)] and [0.0f + 1.0f] is [1.0f]. *)
Theorem Trace_banks_mask_before_modulation :
  (forall (s : @PathState F) (m : Material F),
     geomID (rtcIntersect scene (st_ray s)) <> RTC_INVALID_GEOMETRY_ID ->
     material_at Materials (geomID (rtcIntersect scene (st_ray s))) = Some m ->
     let ray := rtcIntersect scene (st_ray s) in
     let normal := rtcInterpolate2 scene (geomID ray) (primID ray) (u ray) (v ray) in
     let newdir := Trace_newdir normal (distr (st_gen s)) (distr (S (st_gen s))) in
     exists s',
       body s = Continue s' /\
       st_color s' = vadd (st_color s) (st_mask s) /\
       st_mask s' = vscale (vmul (st_mask s) (DiffuseColor m)) (dot newdir normal)) /\
  (forall (ray0 : RTCRay F) (m : Material F),
     fadd (lit 0 1) (lit 10 1) = lit 10 1 ->
     let ray := rtcIntersect scene ray0 in
     let normal := rtcInterpolate2 scene (geomID ray) (primID ray) (u ray) (v ray) in
     let newdir := Trace_newdir normal (distr 0%nat) (distr 1%nat) in
     let cosTheta := dot newdir normal in
     let mask0 := Vec3 (lit 10 1) (lit 10 1) (lit 10 1) in
     let background := Vec3 (lit 5 1) (lit 5 1) (lit 5 1) in
     geomID ray <> RTC_INVALID_GEOMETRY_ID ->
     material_at Materials (geomID ray) = Some m ->
     geomID (rtcIntersect scene (Trace_next_ray ray newdir)) = RTC_INVALID_GEOMETRY_ID ->
     Trace distr scene Materials ray0 =
       Some (Value (vadd mask0
                         (vmul (vscale (vmul mask0 (DiffuseColor m)) cosTheta)
                               background)))).
Proof.
  split.
  - intros s m Hhit Hm. cbv zeta. eexists. split.
    + apply (Trace_body_hit s m Hhit Hm).
    + split; reflexivity.
  - intros ray0 m H01 ray normal newdir cosTheta mask0 background Hhit Hm Hmiss.
    pose proof (Trace_body_hit (Trace_init ray0) m Hhit Hm) as Hbody.
    cbv zeta in Hbody. cbn [st_ray st_color st_mask st_gen Trace_init] in Hbody.
    match type of Hbody with _ = Continue ?s => set (s1 := s) in * end.
    assert (H1 : bounces 1 (Trace_init ray0) = Some s1)
      by (cbn [Trace_bounces]; rewrite Hbody; reflexivity).
    unfold Trace, Trace_run. change 9%nat with (1 + 8)%nat.
    rewrite (Trace_loop_after_bounces 1 8 0 (Trace_init ray0) s1 ltac:(lia) H1).
    rewrite (Trace_loop_miss 7 (0 + Z.of_nat 1) s1 ltac:(lia) Hmiss).
    cbn [option_map fst]. unfold s1. cbn [st_color st_mask].
    unfold vadd at 2. cbn [vx vy vz]. rewrite H01. reflexivity.
Qed.

End TraceLoop.

(** ** Closed runs of the loop *)

Section TraceRuns.
Local Open Scope R_scope.

Lemma Exact_zero_plus_one : fadd (lit 0 1) (lit 10 1) = (lit 10 1 : R).
Proof. cbn. unfold Exact.literal. cbn. lra. Qed.

(** One hit on a grey floor, then a miss. *)
Lemma Trace_first_hit_then_miss_witness :
  let distr := fun _ : nat => (lit 25 2 : R) in
  let newdir := Trace_newdir (world_up : vec3 R) (distr 0%nat) (distr 1%nat) in
  Trace distr (scene_floor world_up) [grey80] ray_down =
  Some (Value (vadd (Vec3 (lit 10 1) (lit 10 1) (lit 10 1))
                    (vmul (vscale (vmul (Vec3 (lit 10 1) (lit 10 1) (lit 10 1))
                                        (DiffuseColor grey80))
                                  (dot newdir world_up))
                          (Vec3 (lit 5 1) (lit 5 1) (lit 5 1))))).
Proof.
  intros distr newdir.
  refine (proj2 (Trace_banks_mask_before_modulation distr (scene_floor world_up) [grey80])
            ray_down grey80 Exact_zero_plus_one _ _ _).
  - cbn. discriminate.
  - reflexivity.
  - reflexivity.
Defined.

(** The same run, read as "a miss after one bounce". *)
Lemma Trace_miss_witness :
  exists s : @PathState R,
    Trace_bounces (fun _ => lit 25 2) (scene_floor world_up) [grey80] 1 (Trace_init ray_down) = Some s /\
    Trace (fun _ => lit 25 2) (scene_floor world_up) [grey80] ray_down =
    Some (Value (vadd (st_color s)
                      (vmul (st_mask s) (Vec3 (lit 5 1) (lit 5 1) (lit 5 1))))).
Proof.
  eexists. split.
  - reflexivity.
  - refine (proj2 (Trace_miss_returns_background (fun _ => lit 25 2)
                     (scene_floor world_up) [grey80] ray_down 1 _ _ _ _)).
    + apply Nat.leb_le. reflexivity.
    + reflexivity.
    + reflexivity.
Defined.

(** Every query hits a black surface: the mask is zero from the second
    bounce on, and the body still runs 8 times. *)
Lemma Trace_eight_bounces_witness :
  exists s8 : @PathState R,
    Trace_run (fun _ => lit 25 2) (scene_closed world_up) [black] ray_down =
    Some (Value (st_color s8), 8%nat).
Proof.
  destruct (proj1 (proj2 (proj2 (Trace_at_most_8_bounces (fun _ => lit 25 2)
                                   (scene_closed world_up) [black] ray_down))))
    as [s8 H8].
  - intros r. split; cbn; discriminate.
  - exists s8.
    exact (proj1 (proj2 (Trace_at_most_8_bounces (fun _ => lit 25 2)
                           (scene_closed world_up) [black] ray_down)) s8 H8).
Defined.

End TraceRuns.

(** ** The other control- and data-flow facts, in every arithmetic *)

Section RendererFacts.
Context {F : Type} `{Scalar F} `{Libm F}.
Variable distr : nat -> F.
Variable scene : RTCScene F.
Variable Materials : list (Material F).


(** C9. [makeCameraRay] is a function of its four arguments alone.
    Whatever the store holds when it is called -- the light [Q], the memory
    its array [CameraToWorld] is about to occupy -- two calls with the same
    arguments return the same ray, origin and direction included.  The call
    writes no object at file scope, so a second call made after the first
    returns that ray again; and the ray is the one the function of the four
    arguments [makeCameraRay] gives. *)
Theorem makeCameraRay_deterministic (x y width height : Z) (s1 s2 : @Store F) :
  let r1 := fst (makeCameraRay_in x y width height s1) in
  let r2 := fst (makeCameraRay_in x y width height s2) in
  let s1' := snd (makeCameraRay_in x y width height s1) in
  org r1 = org r2 /\ dir r1 = dir r2 /\ r1 = r2 /\
  store_Q s1' = store_Q s1 /\
  fst (makeCameraRay_in x y width height s1') = r1 /\
  r1 = makeCameraRay x y width height.
Proof. repeat split. Qed.

(** C10. [traceRay] and [pathTraceRay] return the same radiance, and leave
    the ray in the same state, on every scene, material table and ray. *)
Theorem traceRay_pathTraceRay_equal (ray : RTCRay F) :
  traceRay scene Materials ray = pathTraceRay scene Materials ray.
Proof.
  unfold traceRay, pathTraceRay.
  destruct (intersectScene scene ray) as [[|] ray']; [|reflexivity].
  destruct (shade Materials ray'); reflexivity.
Qed.

End RendererFacts.

(** ** Exact arithmetic *)

(** Unfolds the operations of [Exact.scalar] and evaluates the powers of
    ten under the literals. *)
Ltac exact_lits :=
  cbn [lit fadd fsub fmul fdiv fltb ffabs fsqrt FLT_MAX of_uint32 Exact.scalar
       fcos fsin ftan fpow Exact.libm] in *;
  unfold Exact.literal in *;
  repeat match goal with
  | |- context [(?a ^ Z.of_nat ?k)%Z] =>
      let z := eval vm_compute in (a ^ Z.of_nat k)%Z in
      change (a ^ Z.of_nat k)%Z with z
  | H : context [(?a ^ Z.of_nat ?k)%Z] |- _ =>
      let z := eval vm_compute in (a ^ Z.of_nat k)%Z in
      change (a ^ Z.of_nat k)%Z with z in H
  end.

Section ExactVectors.
Local Open Scope R_scope.


Lemma dot_vdiv (X w : vec3 R) (s : R) : dot (vdiv X s) w = dot X w / s.
Proof. unfold dot, vdiv. cbn. unfold Rdiv. ring. Qed.

Lemma dot_cross_r (p w : vec3 R) : dot (cross p w) w = 0.
Proof. unfold dot, cross. cbn. ring. Qed.

Lemma dot_cross_l (p w : vec3 R) : dot (cross w p) w = 0.
Proof. unfold dot, cross. cbn. ring. Qed.

Lemma dot_self_nonneg (w : vec3 R) : 0 <= dot w w.
Proof. unfold dot. cbn. nra. Qed.

Lemma dot_self_zero (w : vec3 R) : dot w w = 0 -> w = Vec3 0 0 0.
Proof.
  destruct w as [x y z]. unfold dot. cbn. intros H0.
  assert (x = 0) by nra. assert (y = 0) by nra. assert (z = 0) by nra.
  subst. reflexivity.
Qed.

Lemma dot_self_pos (w : vec3 R) : w <> Vec3 0 0 0 -> 0 < dot w w.
Proof.
  intros Hw.
  destruct (Rle_lt_or_eq_dec _ _ (dot_self_nonneg w)) as [Hlt|Heq]; [exact Hlt|].
  exfalso. apply Hw, dot_self_zero. symmetry. exact Heq.
Qed.

Lemma length_pos (w : vec3 R) : w <> Vec3 0 0 0 -> 0 < length w.
Proof.
  intros Hw. unfold length. cbn [fsqrt Exact.scalar].
  apply sqrt_lt_R0, dot_self_pos, Hw.
Qed.

Lemma dot_nonzero_l (a b : vec3 R) : dot a b <> 0 -> a <> Vec3 0 0 0.
Proof. intros Hab ->. apply Hab. unfold dot. cbn. ring. Qed.

Lemma dot_nonzero_r (a b : vec3 R) : dot a b <> 0 -> b <> Vec3 0 0 0.
Proof. intros Hab ->. apply Hab. unfold dot. cbn. ring. Qed.

(** The frame vectors [u] and [v] are orthogonal to the normal, so only the
    term along the normal is left of [dot(sample, normal)]. *)
Lemma Trace_sample_dot (w : vec3 R) (d1 d2 : R) :
  dot (Trace_sample w d1 d2) w = sqrt (1 - d2) * dot w w.
Proof.
  destruct w as [a b c]. unfold Trace_sample. cbv zeta. cbn [vx vy vz].
  set (w := Vec3 a b c).
  set (u := normalize (cross (Trace_axis w) w)).
  set (v := cross w u).
  assert (Hu : dot u w = 0).
  { unfold u, normalize. rewrite dot_vdiv, dot_cross_r. unfold Rdiv. ring. }
  assert (Hv : dot v w = 0) by apply dot_cross_l.
  revert Hu Hv. generalize u v. clear u v. intros u v Hu Hv.
  exact_lits.
  replace (10 / 10 - d2) with (1 - d2) by lra.
  unfold dot, vadd, vscale in *. cbn in *.
  set (C := cos _). set (S := sin _). set (r := sqrt d2). set (q := sqrt (1 - d2)).
  transitivity (C * r * (vx u * a + vy u * b + vz u * c)
                + S * r * (vx v * a + vy v * b + vz v * c)
                + q * (a * a + b * b + c * c)).
  - ring.
  - rewrite Hu, Hv. ring.
Qed.

(** For a unit normal the test of line 42 keeps [cross(axis, w)] away from
    zero. *)
Lemma unit_normal_frame (n : vec3 R) :
  dot n n = 1 -> cross (Trace_axis n) n <> Vec3 0 0 0.
Proof.
  destruct n as [a b c]. unfold dot, Trace_axis. cbn [vx vy vz]. exact_lits.
  intros Hunit. unfold Exact.ltb.
  destruct (Rlt_dec (1 / 10) (Rabs a)) as [Hbig|Hsmall];
    unfold cross; cbn [vx vy vz]; intros H0; injection H0 as Hx Hy Hz.
  - assert (a = 0) by lra. subst a. rewrite Rabs_R0 in Hbig. lra.
  - assert (b = 0) by lra. assert (c = 0) by lra. subst b c.
    assert (Ha : a * a = 1) by lra.
    apply Hsmall.
    destruct (Rcase_abs a) as [Hneg|Hpos].
    + rewrite (Rabs_left a Hneg). nra.
    + rewrite (Rabs_right a Hpos). nra.
Qed.

End ExactVectors.

(** ** binary32 arithmetic *)

Section Binary32Facts.
Context (lm : Libm spec_float).

(** The literals of [Renderer.cpp], as binary32 values [m * 2^e]. *)
Lemma Binary32_literals :
  (PI : spec_float) = S754_finite false 13176795 (-22) /\
  (EPSILON : spec_float) = S754_finite false 16492674 (-39) /\
  (gamma : spec_float) = S754_finite false 9227469 (-22) /\
  (lit 5 1 : spec_float) = S754_finite false 8388608 (-24) /\
  (lit 1 1 : spec_float) = S754_finite false 13421773 (-27) /\
  (lit 10 1 : spec_float) = S754_finite false 8388608 (-23) /\
  (lit 0 1 : spec_float) = S754_zero false.
Proof. repeat split. Qed.

Lemma Binary32_zero_plus_one :
  fadd (lit 0 1) (lit 10 1) = (lit 10 1 : spec_float).
Proof. reflexivity. Qed.

(** [FLT_MAX] is finite. *)
Lemma Binary32_FLT_MAX_finite :
  (FLT_MAX : spec_float) <> Binary32.infinity /\
  SFltb FLT_MAX Binary32.infinity = true.
Proof. split; [discriminate|reflexivity]. Qed.

Lemma mul_zero_zero_or_nan (t : spec_float) :
  Binary32.zero_or_nan (fmul t (S754_zero false)).
Proof.
  destruct t as [s|s| |s m e]; try destruct s; cbn;
    unfold Binary32.zero_or_nan; auto.
Qed.





(** A normal along [x] shorter than [0.1], or a zero normal, makes
    [cross(axis, w)] zero: [u] is [0/0], and NaN is all that is left. *)
Lemma Binary32_newdir_nan (d1 d2 : spec_float) :
  dot (Trace_newdir (Vec3 (lit 5 2) (lit 0 1) (lit 0 1)) d1 d2)
      (Vec3 (lit 5 2) (lit 0 1) (lit 0 1)) = S754_nan /\
  dot (Trace_newdir (Vec3 (lit 0 1) (lit 0 1) (lit 0 1)) d1 d2)
      (Vec3 (lit 0 1) (lit 0 1) (lit 0 1)) = S754_nan.
Proof. split; vm_compute; reflexivity. Qed.

(** The test of line 42 on binary32. *)
Lemma Binary32_Trace_axis (w : vec3 spec_float) :
  Trace_axis w =
  if SFltb (lit 1 1) (SFabs (vx w)) then world_up else world_right.
Proof. reflexivity. Qed.

End Binary32Facts.

(** ** The shading model *)

Section Shading.

(** C8. In every arithmetic [shade] is the stored colour raised, channel by
    channel, to the power [2.2f] and divided by [3.14159265359f]; for the
    colour [(1, 1, 1)], as [pow(1, y)] is [1], that is [1/pi] in every
    channel.  On binary32 the exponent is [0x400CCCCD], the divisor
    [0x40490FDB], and [1.0f / 3.14159265359f] is [0x3EA2F983], the float
    [0.31830987]. *)
Theorem shade_gamma_over_pi :
  (forall (F : Type) (S : Scalar F) (L : Libm F)
          (Materials : list (Material F)) (ray : RTCRay F) (m : Material F),
     material_at Materials (geomID ray) = Some m ->
     shade Materials ray =
     Some (Vec3 (fdiv (fpow (vx (DiffuseColor m)) (lit 22 1))
                      (lit 314159265359 11))
                (fdiv (fpow (vy (DiffuseColor m)) (lit 22 1))
                      (lit 314159265359 11))
                (fdiv (fpow (vz (DiffuseColor m)) (lit 22 1))
                      (lit 314159265359 11)))) /\
  (forall (F : Type) (S : Scalar F) (L : Libm F)
          (Materials : list (Material F)) (ray : RTCRay F) (m : Material F),
     material_at Materials (geomID ray) = Some m ->
     DiffuseColor m = Vec3 (lit 10 1) (lit 10 1) (lit 10 1) ->
     fpow (lit 10 1) (lit 22 1) = lit 10 1 ->
     shade Materials ray =
     Some (Vec3 (fdiv (lit 10 1) (lit 314159265359 11))
                (fdiv (lit 10 1) (lit 314159265359 11))
                (fdiv (lit 10 1) (lit 314159265359 11)))) /\
  ((lit 22 1 : spec_float) = S754_finite false 9227469 (-22) /\
   (lit 314159265359 11 : spec_float) = S754_finite false 13176795 (-22) /\
   (lit 10 1 : spec_float) = S754_finite false 8388608 (-23) /\
   fdiv (lit 10 1) (lit 314159265359 11)
   = S754_finite false 10680707 (-25)).
Proof.
  split; [|split].
  - intros F S L Materials ray m Hm. unfold shade. rewrite Hm. reflexivity.
  - intros F S L Materials ray m Hm Hwhite Hpow. unfold shade.
    rewrite Hm, Hwhite. unfold vpow, vdiv. cbn [vx vy vz].
    change gamma with (lit 22 1). rewrite Hpow. reflexivity.
  - repeat split.
Qed.

(** [shade] on a white surface, on binary32: [0x3EA2F983] in every
    channel. *)
Lemma shade_white_witness :
  @shade spec_float Binary32.scalar Binary32.libm_exact_points
         [white] (hit_surface0 ray_down)
  = Some (Vec3 (S754_finite false 10680707 (-25))
               (S754_finite false 10680707 (-25))
               (S754_finite false 10680707 (-25))).
Proof.
  exact (proj1 (proj2 shade_gamma_over_pi) spec_float Binary32.scalar
               Binary32.libm_exact_points [white] (hit_surface0 ray_down)
               white eq_refl eq_refl eq_refl).
Defined.

End Shading.

(** ** The sampling frame *)

Section SamplingAndLight.
Local Open Scope R_scope.

(** C5, as the code has it.  The reference axis is chosen by the [x]
    component of the normal alone: world-up when [fabs(w.x) > 0.1f],
    world-right otherwise; in exact arithmetic that is [|w.x| > 1/10]. *)
Theorem Trace_axis_by_x_component :
  (forall (F : Type) (S : Scalar F) (w : vec3 F),
     Trace_axis w =
     if fltb (lit 1 1) (ffabs (vx w)) then world_up else world_right) /\
  (forall w : vec3 R,
     (1 / 10 < Rabs (vx w) -> Trace_axis w = world_up) /\
     (Rabs (vx w) <= 1 / 10 -> Trace_axis w = world_right)).
Proof.
  split; [reflexivity|].
  intros w. unfold Trace_axis, world_up, world_right. exact_lits.
  unfold Exact.ltb.
  destruct (Rlt_dec (1 / 10) (Rabs (vx w))) as [Hbig|Hsmall]; split;
    intros Hw; try reflexivity; lra.
Qed.

(** The normal [(0, 0, 1)] is orthogonal to world-up, and the axis chosen
    for it is world-right, in both arithmetics. *)
Lemma Trace_axis_not_by_alignment :
  (dot (Vec3 (lit 0 1) (lit 0 1) (lit 10 1) : vec3 R) world_up = 0 /\
   Trace_axis (Vec3 (lit 0 1) (lit 0 1) (lit 10 1) : vec3 R) = world_right /\
   Trace_axis (Vec3 (lit 0 1) (lit 0 1) (lit 10 1) : vec3 R) <> world_up) /\
  (dot (Vec3 (lit 0 1) (lit 0 1) (lit 10 1) : vec3 spec_float) world_up
     = S754_zero false /\
   Trace_axis (Vec3 (lit 0 1) (lit 0 1) (lit 10 1) : vec3 spec_float)
     = world_right /\
   Trace_axis (Vec3 (lit 0 1) (lit 0 1) (lit 10 1) : vec3 spec_float)
     <> world_up).
Proof.
  split.
  - assert (Haxis : Trace_axis (Vec3 (lit 0 1) (lit 0 1) (lit 10 1) : vec3 R)
                    = world_right).
    { unfold Trace_axis, world_right. cbn [vx]. exact_lits. unfold Exact.ltb.
      replace (0 / 10) with 0 by lra. rewrite Rabs_R0.
      destruct (Rlt_dec (1 / 10) 0) as [Hbig|_]; [lra|reflexivity]. }
    split; [|split].
    + unfold dot, world_up. cbn [vx vy vz]. exact_lits. lra.
    + exact Haxis.
    + rewrite Haxis. unfold world_right, world_up. intros Heq.
      apply (f_equal vx) in Heq. cbn [vx] in Heq. exact_lits. lra.
  - repeat split. vm_compute. discriminate.
Qed.

(** The geometry of the sample direction, over the reals (no rounding, no
    NaN): for draws in [[0,1)] and a normal for which [cross(axis, w)] is
    not zero (every unit normal is one, [unit_normal_frame]), neither
    [normalize] divides by zero and the direction sampled has a
    non-negative dot product with the normal.  It says nothing of the
    binary32 computation, where the same expression depends on the rounding
    of every operation and on libm's [cos] and [sin]. *)
Theorem Trace_newdir_in_hemisphere (n : vec3 R) (d1 d2 : R) :
  0 <= d1 < 1 -> 0 <= d2 < 1 ->
  cross (Trace_axis n) n <> Vec3 0 0 0 ->
  length (cross (Trace_axis n) n) <> 0 /\
  length (Trace_sample n d1 d2) <> 0 /\
  0 <= dot (Trace_newdir n d1 d2) n.
Proof.
  intros Hd1 Hd2 Hframe.
  assert (Hn : n <> Vec3 0 0 0).
  { intros ->. apply Hframe. unfold cross. cbn. f_equal; ring. }
  assert (Hq : 0 < sqrt (1 - d2)) by (apply sqrt_lt_R0; lra).
  assert (Hdot : 0 < dot (Trace_sample n d1 d2) n).
  { rewrite Trace_sample_dot.
    apply Rmult_lt_0_compat; [exact Hq|apply dot_self_pos, Hn]. }
  assert (HX : Trace_sample n d1 d2 <> Vec3 0 0 0).
  { apply (dot_nonzero_l _ n). lra. }
  pose proof (length_pos _ Hframe) as HL.
  pose proof (length_pos _ HX) as HLX.
  split; [lra|]. split; [lra|].
  unfold Trace_newdir, normalize. rewrite dot_vdiv.
  apply Rlt_le, Rdiv_lt_0_compat; assumption.
Qed.

(** On binary32, with [normalize] dividing by the length as modelled, the
    normal [(0.05, 0, 0)] and the zero normal make [dot(newdir, normal)] NaN
    for every pair of draws and every libm, so that the test [>= 0] is
    false. *)
Lemma Trace_newdir_degenerate_normal :
  (forall (lm : Libm spec_float) (d1 d2 : spec_float),
     Binary32.geb
       (dot (Trace_newdir (Vec3 (lit 5 2) (lit 0 1) (lit 0 1)) d1 d2)
            (Vec3 (lit 5 2) (lit 0 1) (lit 0 1)))
       (lit 0 1) = false) /\
  (forall (lm : Libm spec_float) (d1 d2 : spec_float),
     Binary32.geb
       (dot (Trace_newdir (Vec3 (lit 0 1) (lit 0 1) (lit 0 1)) d1 d2)
            (Vec3 (lit 0 1) (lit 0 1) (lit 0 1)))
       (lit 0 1) = false).
Proof.
  split; intros lm d1 d2.
  - rewrite (proj1 (Binary32_newdir_nan lm d1 d2)). reflexivity.
  - rewrite (proj2 (Binary32_newdir_nan lm d1 d2)). reflexivity.
Qed.

End SamplingAndLight.

(** ** Closed examples in exact arithmetic *)

Section ExactExamples.
Local Open Scope R_scope.




End ExactExamples.

(** ** Rounding on binary32 *)

Section Binary32Rounding.
Local Open Scope Z_scope.

Lemma digits2_pos_size (p : positive) : digits2_pos p = Pos.size p.
Proof. induction p as [p IH|p IH|]; cbn; congruence. Qed.

Lemma Zdigits2_log2 (p : positive) : Zdigits2 (Zpos p) = Z.log2 (Zpos p) + 1.
Proof.
  unfold Zdigits2. rewrite digits2_pos_size.
  destruct p as [p|p|]; cbn [Pos.size Z.log2]; lia.
Qed.

Lemma shr_1_div2 (mrs : shr_record) :
  0 <= shr_m mrs -> shr_m (shr_1 mrs) = Z.div2 (shr_m mrs).
Proof.
  destruct mrs as [m r s]. cbn [shr_m]. intros Hm.
  destruct m as [|p|p]; [reflexivity| |lia].
  destruct p; reflexivity.
Qed.

(** [shr_1] iterated [p] times shifts the mantissa right by [p] bits. *)
Lemma iter_shr_1_shiftr (p : positive) :
  forall mrs, 0 <= shr_m mrs ->
    shr_m (SpecFloat.iter_pos shr_1 p mrs) = Z.shiftr (shr_m mrs) (Zpos p).
Proof.
  induction p as [p IH|p IH|]; intros mrs Hm; cbn [SpecFloat.iter_pos].
  - assert (H1 : 0 <= shr_m (shr_1 mrs))
      by (rewrite shr_1_div2, Z.div2_spec by exact Hm;
          apply Z.shiftr_nonneg, Hm).
    assert (H2 : 0 <= shr_m (SpecFloat.iter_pos shr_1 p (shr_1 mrs)))
      by (rewrite IH by exact H1; apply Z.shiftr_nonneg, H1).
    rewrite IH by exact H2. rewrite IH by exact H1.
    rewrite shr_1_div2, Z.div2_spec by exact Hm.
    rewrite !Z.shiftr_shiftr by lia. f_equal. lia.
  - assert (H2 : 0 <= shr_m (SpecFloat.iter_pos shr_1 p mrs))
      by (rewrite IH by exact Hm; apply Z.shiftr_nonneg, Hm).
    rewrite IH by exact H2. rewrite IH by exact Hm.
    rewrite Z.shiftr_shiftr by lia. f_equal. lia.
  - rewrite shr_1_div2, Z.div2_spec by exact Hm. reflexivity.
Qed.

(** The mantissa and the exponent [shr] leaves, for a shift by [n >= 0]. *)
Lemma shr_shiftr (mrs : shr_record) (e n : Z) :
  0 <= shr_m mrs -> 0 <= n ->
  shr_m (fst (shr mrs e n)) = Z.shiftr (shr_m mrs) n /\
  snd (shr mrs e n) = e + n.
Proof.
  intros Hm Hn. unfold shr. destruct n as [|p|p]; cbn [fst snd].
  - rewrite Z.shiftr_0_r. split; [reflexivity|lia].
  - split; [apply iter_shr_1_shiftr, Hm|reflexivity].
  - lia.
Qed.

Lemma shr_record_of_loc_m (m : Z) (l : location) :
  shr_m (shr_record_of_loc m l) = m.
Proof. destruct l as [|[]]; reflexivity. Qed.

Lemma round_nearest_even_or (m : Z) (l : location) :
  round_nearest_even m l = m \/ round_nearest_even m l = m + 1.
Proof.
  destruct l as [|[]]; cbn [round_nearest_even]; try destruct (Z.even m); auto.
Qed.

(** Rounding a mantissa of at least 24 bits whose value lies in the range
    of the normal numbers gives a normal number, one binade up at most. *)
Lemma binary_round_aux_normal (s : bool) (m : positive) (e : Z) (l : location) :
  23 <= Z.log2 (Zpos m) ->
  -149 <= Z.log2 (Zpos m) + e - 23 ->
  Z.log2 (Zpos m) + e <= 126 ->
  exists (m' : positive) (e' : Z),
    binary_round_aux Binary32.prec Binary32.emax s (Zpos m) e l
      = S754_finite s m' e' /\
    Z.log2 (Zpos m') = 23 /\
    (e' = Z.log2 (Zpos m) + e - 23 \/ e' = Z.log2 (Zpos m) + e - 22).
Proof.
  intros Hd Hlo Hhi. set (k := Z.log2 (Zpos m)) in *.
  unfold binary_round_aux, shr_fexp.
  rewrite Zdigits2_log2. fold k.
  assert (Hfexp : fexp Binary32.prec Binary32.emax (k + 1 + e) = k + e - 23).
  { unfold fexp, emin, Binary32.prec, Binary32.emax. lia. }
  rewrite Hfexp.
  replace (k + e - 23 - e) with (k - 23) by lia.
  destruct (shr_shiftr (shr_record_of_loc (Zpos m) l) e (k - 23))
    as [Hm1 He1]; [rewrite shr_record_of_loc_m; lia|lia|].
  destruct (shr (shr_record_of_loc (Zpos m) l) e (k - 23)) as [mrs1 e1].
  cbn [fst snd] in Hm1, He1. rewrite shr_record_of_loc_m in Hm1.
  assert (Hlog1 : Z.log2 (shr_m mrs1) = 23).
  { rewrite Hm1, Z.log2_shiftr by lia. fold k. lia. }
  assert (Hpos1 : 0 < shr_m mrs1).
  { destruct (Z.le_gt_cases (shr_m mrs1) 0) as [Hle|Hgt]; [|lia].
    rewrite (Z.log2_nonpos _ Hle) in Hlog1. lia. }
  set (m2 := round_nearest_even (shr_m mrs1) (loc_of_shr_record mrs1)).
  assert (Hm2 : m2 = shr_m mrs1 \/ m2 = shr_m mrs1 + 1)
    by apply round_nearest_even_or.
  assert (Hpos2 : 0 < m2) by lia.
  assert (Hlog2 : Z.log2 m2 = 23 \/ Z.log2 m2 = 24).
  { destruct Hm2 as [->| ->]; [left; exact Hlog1|].
    destruct (Z.log2_succ_or (shr_m mrs1)) as [Hs|Hs];
      unfold Z.succ in Hs; lia. }
  assert (Hdig2 : Zdigits2 m2 = Z.log2 m2 + 1).
  { destruct m2 as [|p2|p2]; try lia. apply Zdigits2_log2. }
  rewrite Hdig2.
  assert (Hfexp2 : fexp Binary32.prec Binary32.emax (Z.log2 m2 + 1 + e1)
                   = Z.log2 m2 + e1 - 23).
  { unfold fexp, emin, Binary32.prec, Binary32.emax. lia. }
  rewrite Hfexp2.
  replace (Z.log2 m2 + e1 - 23 - e1) with (Z.log2 m2 - 23) by lia.
  destruct (shr_shiftr (shr_record_of_loc m2 loc_Exact) e1 (Z.log2 m2 - 23))
    as [Hm3 He3]; [cbn; lia|lia|].
  destruct (shr (shr_record_of_loc m2 loc_Exact) e1 (Z.log2 m2 - 23))
    as [mrs3 e3].
  cbn [fst snd] in Hm3, He3. cbn [shr_record_of_loc shr_m] in Hm3.
  assert (Hlog3 : Z.log2 (shr_m mrs3) = 23).
  { rewrite Hm3, Z.log2_shiftr by lia. lia. }
  destruct (shr_m mrs3) as [|m3|m3] eqn:Hm3'.
  - cbn in Hlog3. lia.
  - assert (Hle : (e3 <=? Binary32.emax - Binary32.prec) = true).
    { apply Z.leb_le. unfold Binary32.emax, Binary32.prec. lia. }
    rewrite Hle. exists m3, e3. split; [reflexivity|].
    split; [exact Hlog3|]. lia.
  - cbn in Hlog3. lia.
Qed.

(** The product of two normal numbers, when it neither underflows nor
    overflows. *)
Lemma mul_normal (x y : spec_float) (a b : Z) :
  Binary32.normal x a -> Binary32.normal y b ->
  -124 <= a + b -> a + b <= 126 ->
  exists c, Binary32.normal (SFmul Binary32.prec Binary32.emax x y) c /\
            a + b - 1 <= c <= a + b + 1.
Proof.
  intros (mx & ex & -> & Hx & ->) (my & ey & -> & Hy & ->) Hlo Hhi.
  cbn [SFmul xorb].
  pose proof (Z.log2_mul_below (Zpos mx) (Zpos my) ltac:(lia) ltac:(lia)) as H1.
  pose proof (Z.log2_mul_above (Zpos mx) (Zpos my) ltac:(lia) ltac:(lia)) as H2.
  change (Zpos mx * Zpos my) with (Zpos (mx * my)) in H1, H2.
  destruct (binary_round_aux_normal false (mx * my) (ex + ey) loc_Exact)
    as (m' & e' & Heq & Hlog & He'); [lia|lia|lia|].
  rewrite Heq. exists (24 + e'). split.
  - exists m', e'. split; [reflexivity|]. split; [exact Hlog|reflexivity].
  - lia.
Qed.

(** The quotient of two normal numbers, when it neither underflows nor
    overflows. *)
Lemma div_normal (x y : spec_float) (a b : Z) :
  Binary32.normal x a -> Binary32.normal y b ->
  -125 <= a - b -> a - b <= 125 ->
  exists c, Binary32.normal (SFdiv Binary32.prec Binary32.emax x y) c /\
            a - b <= c <= a - b + 2.
Proof.
  intros (mx & ex & -> & Hx & ->) (my & ey & -> & Hy & ->) Hlo Hhi.
  cbn [SFdiv xorb]. unfold SFdiv_core_binary.
  rewrite !Zdigits2_log2, Hx, Hy.
  assert (Hfexp : fexp Binary32.prec Binary32.emax (23 + 1 + ex - (23 + 1 + ey))
                  = ex - ey - 24).
  { unfold fexp, emin, Binary32.prec, Binary32.emax. lia. }
  rewrite Hfexp.
  replace (Z.min (ex - ey - 24) (ex - ey)) with (ex - ey - 24) by lia.
  replace (ex - ey - (ex - ey - 24)) with 24 by lia.
  cbv iota.
  pose proof (Z.log2_spec (Zpos mx) ltac:(lia)) as Hmx.
  pose proof (Z.log2_spec (Zpos my) ltac:(lia)) as Hmy.
  rewrite Hx in Hmx. rewrite Hy in Hmy.
  change (Z.succ 23) with 24 in Hmx, Hmy.
  assert (Hq : 2 ^ 23 <= Z.shiftl (Zpos mx) 24 / Zpos my < 2 ^ 25).
  { rewrite Z.shiftl_mul_pow2 by lia. split.
    - apply Z.div_le_lower_bound; [lia|]. nia.
    - apply Z.div_lt_upper_bound; [lia|]. nia. }
  unfold Z.div in Hq.
  destruct (Z.div_eucl (Z.shiftl (Zpos mx) 24) (Zpos my)) as [q r].
  destruct q as [|q|q]; try lia.
  assert (Hlq : 23 <= Z.log2 (Zpos q) <= 24).
  { split.
    - apply Z.log2_le_pow2; lia.
    - assert (Z.log2 (Zpos q) < 25) by (apply Z.log2_lt_pow2; lia). lia. }
  destruct (binary_round_aux_normal false q (ex - ey - 24)
              (new_location (Zpos my) r))
    as (m' & e' & Heq & Hlog & He'); [lia|lia|lia|].
  rewrite Heq. exists (24 + e'). split.
  - exists m', e'. split; [reflexivity|]. split; [exact Hlog|reflexivity].
  - lia.
Qed.

(** The square root of a normal number. *)
Lemma sqrt_normal (x : spec_float) (a : Z) :
  Binary32.normal x a -> -250 <= a -> a <= 128 ->
  exists c, Binary32.normal (SFsqrt Binary32.prec Binary32.emax x) c /\
            Z.div2 (a + 1) <= c <= Z.div2 (a + 1) + 1.
Proof.
  intros (m & e & -> & Hm & ->) Hlo Hhi.
  cbn [SFsqrt]. unfold SFsqrt_core_binary.
  rewrite Zdigits2_log2, Hm.
  replace (23 + 1 + e + 1) with (e + 25) by lia.
  replace (24 + e + 1) with (e + 25) by lia.
  pose proof (Z.div2_odd (e + 25)) as Hh.
  pose proof (Z.div2_odd e) as He.
  set (h := Z.div2 (e + 25)) in *.
  assert (Hfexp : fexp Binary32.prec Binary32.emax h = h - 24).
  { unfold fexp, emin, Binary32.prec, Binary32.emax.
    destruct (Z.odd (e + 25)); cbn [Z.b2z] in Hh; lia. }
  rewrite Hfexp.
  assert (Hmin : Z.min (h - 24) (Z.div2 e) = h - 24).
  { destruct (Z.odd (e + 25)), (Z.odd e); cbn [Z.b2z] in Hh, He; lia. }
  rewrite Hmin.
  assert (Hs : e - 2 * (h - 24) = 23 \/ e - 2 * (h - 24) = 24).
  { destruct (Z.odd (e + 25)); cbn [Z.b2z] in Hh; lia. }
  pose proof (Z.log2_spec (Zpos m) ltac:(lia)) as Hmm.
  rewrite Hm in Hmm. change (Z.succ 23) with 24 in Hmm.
  assert (Hq : forall s, s = 23 \/ s = 24 ->
            2 ^ 23 <= Z.sqrt (Z.shiftl (Zpos m) s) < 2 ^ 24).
  { intros s Hs'. rewrite Z.shiftl_mul_pow2 by lia. split.
    - apply Z.sqrt_le_square; [lia|lia|].
      destruct Hs' as [-> | ->]; lia.
    - apply Z.sqrt_lt_square; [lia|lia|].
      destruct Hs' as [-> | ->]; lia. }
  assert (Hcase : exists s, (s = 23 \/ s = 24) /\
            match e - 2 * (h - 24) with
            | Zpos _ => Z.shiftl (Zpos m) (e - 2 * (h - 24))
            | Z0 => Zpos m
            | Zneg _ => 0
            end = Z.shiftl (Zpos m) s).
  { destruct Hs as [Hs|Hs]; rewrite Hs; [exists 23|exists 24];
      (split; [lia|reflexivity]). }
  destruct Hcase as (s & Hs' & Hcase).
  change (Z.pos 2 * (h - 24)) with (2 * (h - 24)).
  rewrite Hcase.
  specialize (Hq s Hs'). rewrite <- Z.sqrtrem_sqrt in Hq.
  destruct (Z.sqrtrem (Z.shiftl (Zpos m) s)) as [q r]. cbn [fst] in Hq.
  destruct q as [|q|q]; try lia.
  assert (Hlq : Z.log2 (Zpos q) = 23).
  { apply Z.log2_unique; [lia|]. change (Z.succ 23) with 24. lia. }
  match goal with
  | |- context [binary_round_aux _ _ false (Zpos q) (h - 24) ?l] =>
      destruct (binary_round_aux_normal false q (h - 24) l)
        as (m' & e' & Heq & Hlog & He')
  end; [lia| | |].
  - destruct (Z.odd (e + 25)); cbn [Z.b2z] in Hh; lia.
  - destruct (Z.odd (e + 25)); cbn [Z.b2z] in Hh; lia.
  - rewrite Heq. exists (24 + e'). split.
    + exists m', e'. split; [reflexivity|]. split; [exact Hlog|reflexivity].
    + fold h. lia.
Qed.

Lemma normal_add_zero_l (x : spec_float) (k : Z) :
  Binary32.normal x k -> SFadd Binary32.prec Binary32.emax (S754_zero false) x = x.
Proof. intros (m & e & -> & _). reflexivity. Qed.

Lemma normal_add_zero_r (x : spec_float) (k : Z) :
  Binary32.normal x k -> SFadd Binary32.prec Binary32.emax x (S754_zero false) = x.
Proof. intros (m & e & -> & _). reflexivity. Qed.

Lemma normal_positive (x : spec_float) (k : Z) :
  Binary32.normal x k -> Binary32.is_positive x.
Proof. intros (m & e & -> & _). reflexivity. Qed.

Lemma normal_mul_zero (x : spec_float) (k : Z) :
  Binary32.normal x k ->
  SFmul Binary32.prec Binary32.emax x (S754_zero false) = S754_zero false.
Proof. intros (m & e & -> & _). reflexivity. Qed.

Lemma normal_fmax (x : spec_float) (k : Z) :
  Binary32.normal x k -> fmax (lit 0 1) x = x.
Proof. intros (m & e & -> & _). reflexivity. Qed.

Lemma normal_one : Binary32.normal (lit 10 1) 1.
Proof. exists 8388608%positive, (-23). repeat split. Qed.

Lemma normal_pi : Binary32.normal (lit 314159265359 11) 2.
Proof. exists 13176795%positive, (-22). repeat split. Qed.

Lemma sub_zero_zero (x : spec_float) :
  Binary32.is_zero x ->
  SFsub Binary32.prec Binary32.emax (S754_zero false) x = S754_zero false.
Proof. intros [-> | ->]; reflexivity. Qed.

Lemma zero_or_nan_not_positive (x : spec_float) :
  Binary32.zero_or_nan x -> SFltb (S754_zero false) x = false.
Proof. intros [-> | [-> | ->]]; reflexivity. Qed.

Lemma zero_or_nan_mul_one (x : spec_float) :
  Binary32.zero_or_nan x ->
  Binary32.zero_or_nan (SFmul Binary32.prec Binary32.emax x (lit 10 1)).
Proof.
  intros [-> | [-> | ->]]; cbn; unfold Binary32.zero_or_nan; auto.
Qed.

End Binary32Rounding.

(** ** The direct light *)

Section DirectLight.
Local Open Scope Z_scope.

(** What the estimator returns for a ray that hits a surface with a
    material, in every arithmetic. *)
Lemma pathTraceRay_hit {F : Type} `{Scalar F} `{Libm F}
    (scene : RTCScene F) (Materials : list (Material F))
    (ray0 : RTCRay F) (m : Material F) :
  let ray := rtcIntersect scene ray0 in
  let P := Vec3 (vx (org ray) + vx (dir ray) * tfar ray)%fl
                (vy (org ray) + vy (dir ray) * tfar ray)%fl
                (vz (org ray) + vz (dir ray) * tfar ray)%fl in
  let N := rtcInterpolate2 scene (geomID ray) (primID ray) (u ray) (v ray) in
  let toLight := vsub Q P in
  geomID ray <> RTC_INVALID_GEOMETRY_ID ->
  material_at Materials (geomID ray) = Some m ->
  fst (pathTraceRay scene Materials ray0) =
  Some (vscale (vscale (vmul (vdiv (Vec3 (lit 10 1) (lit 10 1) (lit 10 1))
                                   (length toLight * length toLight)%fl)
                             (vdiv (vpow (DiffuseColor m) gamma) PI))
                       (fmax (lit 0 1) (dot (normalize N) (normalize toLight))))
               (visibility scene P toLight)).
Proof.
  intros ray P N toLight Hhit Hm.
  unfold pathTraceRay, intersectScene. fold ray.
  apply Z.eqb_neq in Hhit. rewrite Hhit. cbn [negb].
  unfold shade. rewrite Hm. reflexivity.
Qed.

(** The inverse-square factor for a light at a distance [d] straight up. *)
Lemma falloff_normal (d : spec_float) (a : Z) :
  Binary32.normal d a -> -30 <= a <= 30 ->
  let toLight := Vec3 (S754_zero false) d (S754_zero false) in
  exists k,
    Binary32.normal (fdiv (lit 10 1) (length toLight * length toLight)%fl) k /\
    -2 * a - 4 <= k <= -2 * a + 4.
Proof.
  intros Hd Ha toLight.
  destruct (mul_normal d d a a Hd Hd) as (kdd & Hdd & Hkdd); [lia|lia|].
  assert (Hdot : dot toLight toLight = SFmul Binary32.prec Binary32.emax d d).
  { unfold dot, toLight. cbn [vx vy vz fadd fmul Binary32.scalar].
    change (SFmul Binary32.prec Binary32.emax (S754_zero false) (S754_zero false))
      with (S754_zero false).
    rewrite (normal_add_zero_l _ _ Hdd). apply (normal_add_zero_r _ _ Hdd). }
  unfold length. rewrite Hdot. cbn [fsqrt fmul fdiv Binary32.scalar].
  destruct (sqrt_normal _ kdd Hdd) as (kL & HL & HkL); [lia|lia|].
  pose proof (Z.div2_odd (kdd + 1)) as Hodd.
  assert (HkL' : a <= kL <= a + 2)
    by (destruct (Z.odd (kdd + 1)); cbn [Z.b2z] in Hodd; lia).
  destruct (mul_normal _ _ kL kL HL HL) as (kDD & HDD & HkDD); [lia|lia|].
  destruct (div_normal _ _ 1 kDD normal_one HDD) as (k & Hk & Hkk); [lia|lia|].
  exists k. split; [exact Hk|]. lia.
Qed.

(** One channel of the estimator's product -- falloff, reflectance, cosine
    -- times either value of the visibility factor. *)
Lemma channel_lit_or_shadowed (Li p cosine : spec_float) (kl kp kc : Z) :
  Binary32.normal Li kl -> Binary32.normal p kp -> Binary32.normal cosine kc ->
  -64 <= kl <= 64 -> -30 <= kp <= 1 -> -20 <= kc <= 1 ->
  let X := fmul (fmul Li (fdiv p (lit 314159265359 11)))
                (fmax (lit 0 1) cosine) in
  fmul X (lit 0 1) = S754_zero false /\
  Binary32.is_positive (fmul X (lit 10 1)).
Proof.
  intros HLi Hp Hc Hkl Hkp Hkc X. unfold X.
  rewrite (normal_fmax _ _ Hc).
  cbn [fmul fdiv Binary32.scalar].
  destruct (div_normal _ _ kp 2 Hp normal_pi) as (ks & Hs & Hks); [lia|lia|].
  destruct (mul_normal _ _ kl ks HLi Hs) as (k1 & H1 & Hk1); [lia|lia|].
  destruct (mul_normal _ _ k1 kc H1 Hc) as (k2 & H2 & Hk2); [lia|lia|].
  split.
  - apply (normal_mul_zero _ _ H2).
  - destruct (mul_normal _ _ k2 1 H2 normal_one) as (k3 & H3 & Hk3); [lia|lia|].
    apply (normal_positive _ _ H3).
Qed.

(** C7, as the code has it.  In every arithmetic the result for a ray that
    hits is the shading product [Li * shade * max(0, dot(N, Wi))] times the
    visibility factor, which is [0.0f] when [rtcOccluded] reports a hit on
    the shadow ray (from the hit point [P] along [Q - P], parameters
    [0.001] to [1]) and [1.0f] when it reports none.  On binary32 and for
    every libm: when an occluder is reported every channel is a zero or
    NaN, hence not positive; and
    when the hit point is directly below the light at a distance in
    [[2^-31, 2^30)], the cosine the code computes is a normal number of at
    least [2^-21] and [pow] returns, for each channel of the base colour, a
    normal number in [[2^-31, 2)], the result is zero in every channel with
    an occluder reported and positive in every channel without. *)
Theorem pathTraceRay_lit_or_shadowed :
  (forall (F : Type) (S : Scalar F) (L : Libm F) (scene : RTCScene F)
          (Materials : list (Material F)) (ray0 : RTCRay F) (m : Material F),
     let ray := rtcIntersect scene ray0 in
     let P := Vec3 (vx (org ray) + vx (dir ray) * tfar ray)%fl
                   (vy (org ray) + vy (dir ray) * tfar ray)%fl
                   (vz (org ray) + vz (dir ray) * tfar ray)%fl in
     let N := rtcInterpolate2 scene (geomID ray) (primID ray) (u ray) (v ray) in
     let toLight := vsub (Vec3 (lit 0 1) (lit 14 1) (lit 0 1)) P in
     let shadowRay :=
       rtcOccluded scene
         (mkRay P toLight (lit 1 3) (lit 10 1) (lit 0 1) (-1)
                RTC_INVALID_GEOMETRY_ID RTC_INVALID_GEOMETRY_ID
                (lit 0 1) (lit 0 1)) in
     let product :=
       vscale (vmul (vdiv (Vec3 (lit 10 1) (lit 10 1) (lit 10 1))
                          (length toLight * length toLight)%fl)
                    (vdiv (vpow (DiffuseColor m) (lit 22 1))
                          (lit 314159265359 11)))
              (fmax (lit 0 1) (dot (normalize N) (normalize toLight))) in
     geomID ray <> RTC_INVALID_GEOMETRY_ID ->
     material_at Materials (geomID ray) = Some m ->
     (geomID shadowRay = 0 ->
      fst (pathTraceRay scene Materials ray0)
      = Some (vscale product (lit 0 1))) /\
     (geomID shadowRay <> 0 ->
      fst (pathTraceRay scene Materials ray0)
      = Some (vscale product (lit 10 1)))) /\
  (forall (lm : Libm spec_float) (scene : RTCScene spec_float)
          (Materials : list (Material spec_float))
          (ray0 : RTCRay spec_float) (m : Material spec_float),
     let ray := rtcIntersect scene ray0 in
     let P := Vec3 (vx (org ray) + vx (dir ray) * tfar ray)%fl
                   (vy (org ray) + vy (dir ray) * tfar ray)%fl
                   (vz (org ray) + vz (dir ray) * tfar ray)%fl in
     let N := rtcInterpolate2 scene (geomID ray) (primID ray) (u ray) (v ray) in
     let toLight := vsub (Vec3 (lit 0 1) (lit 14 1) (lit 0 1)) P in
     let shadowRay :=
       rtcOccluded scene
         (mkRay P toLight (lit 1 3) (lit 10 1) (lit 0 1) (-1)
                RTC_INVALID_GEOMETRY_ID RTC_INVALID_GEOMETRY_ID
                (lit 0 1) (lit 0 1)) in
     geomID ray <> RTC_INVALID_GEOMETRY_ID ->
     material_at Materials (geomID ray) = Some m ->
     (geomID shadowRay = 0 ->
      exists r, fst (pathTraceRay scene Materials ray0) = Some r /\
                Binary32.zero_or_nan (vx r) /\
                Binary32.zero_or_nan (vy r) /\
                Binary32.zero_or_nan (vz r)) /\
     (forall a kc kx ky kz : Z,
        Binary32.is_zero (vx P) -> Binary32.is_zero (vz P) ->
        Binary32.normal (fsub (lit 14 1) (vy P)) a -> -30 <= a <= 30 ->
        Binary32.normal (dot (normalize N) (normalize toLight)) kc ->
        -20 <= kc <= 1 ->
        Binary32.normal (fpow (vx (DiffuseColor m)) (lit 22 1)) kx ->
        -30 <= kx <= 1 ->
        Binary32.normal (fpow (vy (DiffuseColor m)) (lit 22 1)) ky ->
        -30 <= ky <= 1 ->
        Binary32.normal (fpow (vz (DiffuseColor m)) (lit 22 1)) kz ->
        -30 <= kz <= 1 ->
        (geomID shadowRay = 0 ->
         fst (pathTraceRay scene Materials ray0)
         = Some (Vec3 (S754_zero false) (S754_zero false) (S754_zero false))) /\
        (geomID shadowRay <> 0 ->
         exists r, fst (pathTraceRay scene Materials ray0) = Some r /\
                   Binary32.is_positive (vx r) /\
                   Binary32.is_positive (vy r) /\
                   Binary32.is_positive (vz r)))).
Proof.
  split.
  - intros F S L scene Materials ray0 m ray P N toLight shadowRay product
           Hhit Hm.
    pose proof (pathTraceRay_hit scene Materials ray0 m Hhit Hm) as Hrun.
    cbv zeta in Hrun. fold ray in Hrun. fold P in Hrun. fold N in Hrun.
    change (vsub Q P) with toLight in Hrun.
    assert (Hvis : visibility scene P toLight =
                   if negb (geomID shadowRay =? 0) then lit 10 1 else lit 0 1)
      by reflexivity.
    rewrite Hvis in Hrun. split.
    + intros Hocc. rewrite Hocc in Hrun. exact Hrun.
    + intros Hfree. apply Z.eqb_neq in Hfree. rewrite Hfree in Hrun.
      exact Hrun.
  - intros lm scene Materials ray0 m ray P N toLight shadowRay Hhit Hm.
    pose proof (pathTraceRay_hit scene Materials ray0 m Hhit Hm) as Hrun.
    cbv zeta in Hrun. fold ray in Hrun. fold P in Hrun. fold N in Hrun.
    change (vsub Q P) with toLight in Hrun.
    assert (Hvis : visibility scene P toLight =
                   if negb (geomID shadowRay =? 0) then lit 10 1 else lit 0 1)
      by reflexivity.
    rewrite Hvis in Hrun. split.
    + intros Hocc. rewrite Hocc in Hrun. cbn [Z.eqb negb] in Hrun.
      eexists. split; [exact Hrun|].
      unfold vscale. cbn [vx vy vz].
      repeat split; apply mul_zero_zero_or_nan.
    + intros a kc kx ky kz HPx HPz Hd Ha Hcos Hkc Hpx Hkx Hpy Hky Hpz Hkz.
      assert (HtL : toLight = Vec3 (S754_zero false) (fsub (lit 14 1) (vy P))
                                   (S754_zero false)).
      { unfold toLight, vsub. cbn [vx vy vz fsub Binary32.scalar].
        change (lit 0 1 : spec_float) with (S754_zero false).
        rewrite (sub_zero_zero _ HPx), (sub_zero_zero _ HPz). reflexivity. }
      destruct (falloff_normal _ a Hd Ha) as (kl & HLi & Hkl).
      rewrite <- HtL in HLi.
      destruct (channel_lit_or_shadowed _ _ _ kl kx kc HLi Hpx Hcos)
        as [Hx0 Hx1]; try lia.
      destruct (channel_lit_or_shadowed _ _ _ kl ky kc HLi Hpy Hcos)
        as [Hy0 Hy1]; try lia.
      destruct (channel_lit_or_shadowed _ _ _ kl kz kc HLi Hpz Hcos)
        as [Hz0 Hz1]; try lia.
      split.
      * intros Hocc. rewrite Hocc in Hrun. cbn [Z.eqb negb] in Hrun.
        rewrite Hrun. unfold vscale, vmul, vdiv, vpow. cbn [vx vy vz].
        f_equal. f_equal; assumption.
      * intros Hfree. apply Z.eqb_neq in Hfree. rewrite Hfree in Hrun.
        cbn [negb] in Hrun. eexists. split; [exact Hrun|].
        unfold vscale, vmul, vdiv, vpow. cbn [vx vy vz].
        repeat split; assumption.
Qed.

(** The white floor under [ray_down], on binary32: the hit point is
    [(0, 0, 0)], the light is [1.4] above it and the cosine is [1]; lit it
    returns [0x3E264CE4] (the float [0.16240]) in every channel, shadowed
    zero. *)
Lemma pathTraceRay_witness :
  fst (@pathTraceRay spec_float Binary32.scalar Binary32.libm_exact_points
         (scene_floor_shadowed world_up) [white] ray_down)
  = Some (Vec3 (S754_zero false) (S754_zero false) (S754_zero false)) /\
  (exists r,
     fst (@pathTraceRay spec_float Binary32.scalar Binary32.libm_exact_points
            (scene_floor world_up) [white] ray_down) = Some r /\
     Binary32.is_positive (vx r) /\ Binary32.is_positive (vy r) /\
     Binary32.is_positive (vz r)).
Proof.
  assert (Hd : Binary32.normal (S754_finite false 11744051 (-23)) 1)
    by (exists 11744051%positive, (-23); repeat split).
  split.
  - refine (proj1 (proj2 (proj2 pathTraceRay_lit_or_shadowed
                            Binary32.libm_exact_points
                            (scene_floor_shadowed world_up) [white] ray_down
                            white _ eq_refl)
                     1 1 1 1 1 _ _ Hd _ normal_one _ normal_one _ normal_one _
                     normal_one _) eq_refl);
      try (left; reflexivity); try lia.
    cbn. discriminate.
  - refine (proj2 (proj2 (proj2 pathTraceRay_lit_or_shadowed
                            Binary32.libm_exact_points
                            (scene_floor world_up) [white] ray_down
                            white _ eq_refl)
                     1 1 1 1 1 _ _ Hd _ normal_one _ normal_one _ normal_one _
                     normal_one _) _);
      try (left; reflexivity); try lia.
    + cbn. discriminate.
    + cbn. discriminate.
Defined.

(** When the cosine factor is zero the product is zero or NaN in every
    channel, whatever the shadow test reports. *)
Lemma pathTraceRay_dark (lm : Libm spec_float) (scene : RTCScene spec_float)
    (Materials : list (Material spec_float)) (ray0 : RTCRay spec_float)
    (m : Material spec_float) :
  let ray := rtcIntersect scene ray0 in
  let P := Vec3 (vx (org ray) + vx (dir ray) * tfar ray)%fl
                (vy (org ray) + vy (dir ray) * tfar ray)%fl
                (vz (org ray) + vz (dir ray) * tfar ray)%fl in
  let N := rtcInterpolate2 scene (geomID ray) (primID ray) (u ray) (v ray) in
  geomID ray <> RTC_INVALID_GEOMETRY_ID ->
  material_at Materials (geomID ray) = Some m ->
  fmax (lit 0 1) (dot (normalize N) (normalize (vsub Q P))) = S754_zero false ->
  exists r,
    fst (pathTraceRay scene Materials ray0) = Some r /\
    SFltb (S754_zero false) (vx r) = false /\
    SFltb (S754_zero false) (vy r) = false /\
    SFltb (S754_zero false) (vz r) = false.
Proof.
  intros ray P N Hhit Hm Hcos.
  pose proof (pathTraceRay_hit scene Materials ray0 m Hhit Hm) as Hrun.
  cbv zeta in Hrun. fold ray in Hrun. fold P in Hrun. fold N in Hrun.
  rewrite Hcos in Hrun.
  eexists. split; [exact Hrun|].
  assert (Hvis : forall x, Binary32.zero_or_nan x ->
            Binary32.zero_or_nan (fmul x (visibility scene P (vsub Q P)))).
  { intros x Hx. unfold visibility.
    destruct (negb (geomID (rtcOccluded scene (visibility_ray P (vsub Q P)))
                    =? 0)).
    - apply zero_or_nan_mul_one, Hx.
    - apply mul_zero_zero_or_nan. }
  unfold vscale. cbn [vx vy vz].
  repeat split; apply zero_or_nan_not_positive, Hvis, mul_zero_zero_or_nan.
Qed.

(** C7 as stated fails on binary32.  The hit point of [ray_down] is
    directly below the light and no occluder is reported; yet, for every
    libm, the white floor returns no positive channel when it faces away
    from the light (normal [(0, -1, 0)]), when its normal [(2, 2^-149, 0)]
    has an upward component whose cosine underflows, and when it is so far
    below the light that the squared distance overflows; and a black floor
    returns zero as soon as [pow(0, 2.2f)] is [0]. *)
Lemma pathTraceRay_unlit_without_occluder :
  (let ray := rtcIntersect (scene_floor (world_down : vec3 spec_float))
                           ray_down in
   let P := Vec3 (vx (org ray) + vx (dir ray) * tfar ray)%fl
                 (vy (org ray) + vy (dir ray) * tfar ray)%fl
                 (vz (org ray) + vz (dir ray) * tfar ray)%fl in
   P = Vec3 (S754_zero false) (S754_zero false) (S754_zero false) /\
   geomID (rtcOccluded (scene_floor (world_down : vec3 spec_float))
                       (visibility_ray P (vsub Q P))) <> 0) /\
  (forall lm : Libm spec_float,
   exists r,
     fst (pathTraceRay (scene_floor world_down) [white] ray_down) = Some r /\
     SFltb (S754_zero false) (vx r) = false /\
     SFltb (S754_zero false) (vy r) = false /\
     SFltb (S754_zero false) (vz r) = false) /\
  Binary32.is_positive (vy grazing_normal) /\
  (forall lm : Libm spec_float,
   exists r,
     fst (pathTraceRay (scene_floor grazing_normal) [white] ray_down)
       = Some r /\
     SFltb (S754_zero false) (vx r) = false /\
     SFltb (S754_zero false) (vy r) = false /\
     SFltb (S754_zero false) (vz r) = false) /\
  (let ray := rtcIntersect scene_floor_far ray_down in
   let P := Vec3 (vx (org ray) + vx (dir ray) * tfar ray)%fl
                 (vy (org ray) + vy (dir ray) * tfar ray)%fl
                 (vz (org ray) + vz (dir ray) * tfar ray)%fl in
   P = Vec3 (S754_zero false) (S754_finite true 8388608 77) (S754_zero false) /\
   geomID (rtcOccluded scene_floor_far (visibility_ray P (vsub Q P))) <> 0) /\
  (forall lm : Libm spec_float,
   exists r,
     fst (pathTraceRay scene_floor_far [white] ray_down) = Some r /\
     SFltb (S754_zero false) (vx r) = false /\
     SFltb (S754_zero false) (vy r) = false /\
     SFltb (S754_zero false) (vz r) = false) /\
  fst (@pathTraceRay spec_float Binary32.scalar Binary32.libm_exact_points
         (scene_floor world_up) [black] ray_down)
  = Some (Vec3 (S754_zero false) (S754_zero false) (S754_zero false)).
Proof.
  split; [split; [reflexivity|cbn; discriminate]|].
  split.
  { intros lm.
    apply (pathTraceRay_dark lm (scene_floor world_down) [white] ray_down white);
      [cbn; discriminate|reflexivity|reflexivity]. }
  split; [reflexivity|].
  split.
  { intros lm.
    apply (pathTraceRay_dark lm (scene_floor grazing_normal) [white] ray_down
             white); [cbn; discriminate|reflexivity|reflexivity]. }
  split; [split; [reflexivity|cbn; discriminate]|].
  split.
  { intros lm.
    apply (pathTraceRay_dark lm scene_floor_far [white] ray_down white);
      [cbn; discriminate|reflexivity|reflexivity]. }
  reflexivity.
Qed.

End DirectLight.

(** ** [Trace] under the invariant that every surface has a material *)

Section TraceSafety.
Context {F : Type} `{Scalar F} `{Libm F}.
Variable distr : nat -> F.
Variable scene : RTCScene F.
Variable Materials : list (Material F).





End TraceSafety.

(** ** [traceImage] *)

Section FrameFacts.
Context {F : Type} `{Scalar F} `{Libm F}.
Variable scene : RTCScene F.
Variable Materials : list (Material F).

Lemma pathTraceRay_covered (ray : RTCRay F) :
  materials_cover scene Materials ->
  fst (pathTraceRay scene Materials ray) <> None.
Proof.
  intros Hcover. unfold pathTraceRay, intersectScene.
  destruct (geomID (rtcIntersect scene ray) =? RTC_INVALID_GEOMETRY_ID) eqn:Hid;
    cbn [negb].
  - discriminate.
  - apply Z.eqb_neq in Hid. unfold shade.
    destruct (Hcover ray) as [Hmiss|Hmat]; [contradiction|].
    destruct (material_at Materials (geomID (rtcIntersect scene ray)));
      [discriminate|contradiction].
Qed.


Variables width height : Z.
Hypothesis Hwidth : 0 <= width < 4294967296.
Hypothesis Hheight : 0 <= height < 4294967296.

Lemma uint32_succ_small (x bound : Z) :
  0 <= x < bound -> bound < 4294967296 -> uint32_succ x = x + 1.
Proof. intros Hx Hb. unfold uint32_succ. apply Z.mod_small. lia. Qed.

(** The loop over [x], when every pixel left of the row has a defined
    radiance. *)
Lemma traceImage_row_spec (y : Z) (fuel : nat) :
  forall x calls,
    0 <= x <= width -> width - x < Z.of_nat fuel ->
    (forall i, x <= i < width ->
       pixel_radiance scene Materials width height i y <> None) ->
    exists l,
      traceImage_row scene Materials width height y fuel x calls
        = Some (Pixels (calls ++ l)) /\
      List.length l = Z.to_nat (width - x) /\
      forall i, x <= i < width ->
        exists Lo, pixel_radiance scene Materials width height i y = Some Lo /\
                   nth_error l (Z.to_nat (i - x)) = Some (i, y, Lo).
Proof.
  induction fuel as [|fuel IH]; intros x calls Hx Hfuel Hdef; [lia|].
  cbn [traceImage_row].
  destruct (x <? width) eqn:Hlt.
  - apply Z.ltb_lt in Hlt.
    destruct (pixel_radiance scene Materials width height x y) as [Lo|] eqn:HLo;
      [|exfalso; apply (Hdef x); [lia|exact HLo]].
    unfold pixel_radiance in HLo. rewrite HLo.
    rewrite (uint32_succ_small x width) by lia.
    destruct (IH (x + 1) (calls ++ [(x, y, Lo)])) as (l & Hrun & Hlen & Hnth);
      [lia|lia|intros i Hi; apply Hdef; lia|].
    exists ((x, y, Lo) :: l). split; [|split].
    + rewrite Hrun, <- app_assoc. reflexivity.
    + cbn [List.length]. rewrite Hlen. lia.
    + intros i Hi. destruct (Z.eq_dec i x) as [->|Hne].
      * exists Lo. split; [exact HLo|]. rewrite Z.sub_diag. reflexivity.
      * destruct (Hnth i) as (Lo' & HLo' & Hi'); [lia|].
        exists Lo'. split; [exact HLo'|].
        replace (Z.to_nat (i - x)) with (S (Z.to_nat (i - (x + 1)))) by lia.
        exact Hi'.
  - apply Z.ltb_ge in Hlt. exists []. split; [|split].
    + rewrite app_nil_r. reflexivity.
    + cbn. lia.
    + intros i Hi. lia.
Qed.

(** The loop over [x], when some pixel left of the row has none. *)
Lemma traceImage_row_undefined (y : Z) (fuel : nat) :
  forall x calls,
    0 <= x <= width -> width - x < Z.of_nat fuel ->
    (exists i, x <= i < width /\
       pixel_radiance scene Materials width height i y = None) ->
    traceImage_row scene Materials width height y fuel x calls
      = Some FrameUndefined.
Proof.
  induction fuel as [|fuel IH]; intros x calls Hx Hfuel (i & Hi & Hnone); [lia|].
  cbn [traceImage_row].
  assert (Hlt : (x <? width) = true) by (apply Z.ltb_lt; lia).
  rewrite Hlt.
  destruct (pixel_radiance scene Materials width height x y) as [Lo|] eqn:HLo;
    unfold pixel_radiance in HLo; rewrite HLo; [|reflexivity].
  rewrite (uint32_succ_small x width) by lia.
  apply IH; [lia|lia|].
  exists i. split; [|exact Hnone].
  destruct (Z.eq_dec i x) as [->|Hne]; [|lia].
  unfold pixel_radiance in Hnone. congruence.
Qed.

Lemma traceImage_rows_spec (fuel : nat) :
  forall y calls,
    0 <= y <= height -> height - y < Z.of_nat fuel ->
    (forall i j, 0 <= i < width -> y <= j < height ->
       pixel_radiance scene Materials width height i j <> None) ->
    exists l,
      traceImage_rows scene Materials width height fuel y calls
        = Some (Pixels (calls ++ l)) /\
      List.length l = Z.to_nat ((height - y) * width) /\
      forall i j, 0 <= i < width -> y <= j < height ->
        exists Lo, pixel_radiance scene Materials width height i j = Some Lo /\
                   nth_error l (Z.to_nat ((j - y) * width + i)) = Some (i, j, Lo).
Proof.
  induction fuel as [|fuel IH]; intros y calls Hy Hfuel Hdef; [lia|].
  cbn [traceImage_rows].
  destruct (y <? height) eqn:Hlt.
  - apply Z.ltb_lt in Hlt.
    destruct (traceImage_row_spec y (S (Z.to_nat width)) 0 calls)
      as (lrow & Hrow & Hlrow & Hnrow);
      [lia|lia|intros i Hi; apply Hdef; lia|].
    rewrite Hrow.
    rewrite (uint32_succ_small y height) by lia.
    destruct (IH (y + 1) (calls ++ lrow)) as (l & Hrun & Hlen & Hnth);
      [lia|lia|intros i j Hi Hj; apply Hdef; lia|].
    exists (lrow ++ l). split; [|split].
    + rewrite Hrun, <- app_assoc. reflexivity.
    + rewrite length_app, Hlrow, Hlen. nia.
    + intros i j Hi Hj. destruct (Z.eq_dec j y) as [->|Hne].
      * destruct (Hnrow i) as (Lo & HLo & Hi'); [lia|].
        exists Lo. split; [exact HLo|].
        rewrite nth_error_app1 by (rewrite Hlrow; nia).
        replace ((y - y) * width + i) with (i - 0) by lia. exact Hi'.
      * destruct (Hnth i j) as (Lo & HLo & Hi'); [lia|lia|].
        exists Lo. split; [exact HLo|].
        rewrite nth_error_app2 by (rewrite Hlrow; nia).
        replace (Z.to_nat ((j - y) * width + i) - List.length lrow)%nat
          with (Z.to_nat ((j - (y + 1)) * width + i)) by (rewrite Hlrow; nia).
        exact Hi'.
  - apply Z.ltb_ge in Hlt. exists []. split; [|split].
    + rewrite app_nil_r. reflexivity.
    + replace (height - y) with 0 by lia. reflexivity.
    + intros i j Hi Hj. lia.
Qed.

(** Either every pixel of a stretch of the row [y] has a defined radiance,
    or one of them has none. *)
Lemma row_defined_dec (y : Z) (n : nat) :
  forall x,
    (forall i, x <= i < x + Z.of_nat n ->
       pixel_radiance scene Materials width height i y <> None) \/
    (exists i, x <= i < x + Z.of_nat n /\
       pixel_radiance scene Materials width height i y = None).
Proof.
  induction n as [|n IH]; intros x.
  - left. intros i Hi. lia.
  - destruct (pixel_radiance scene Materials width height x y) eqn:Hx.
    + destruct (IH (x + 1)) as [Hall|(i & Hi & Hnone)].
      * left. intros i Hi. destruct (Z.eq_dec i x) as [->|Hne];
          [rewrite Hx; discriminate|apply Hall; lia].
      * right. exists i. split; [lia|exact Hnone].
    + right. exists x. split; [lia|exact Hx].
Qed.

Lemma traceImage_rows_undefined (fuel : nat) :
  forall y calls,
    0 <= y <= height -> height - y < Z.of_nat fuel ->
    (exists i j, 0 <= i < width /\ y <= j < height /\
       pixel_radiance scene Materials width height i j = None) ->
    traceImage_rows scene Materials width height fuel y calls
      = Some FrameUndefined.
Proof.
  induction fuel as [|fuel IH]; intros y calls Hy Hfuel (i & j & Hi & Hj & Hnone);
    [lia|].
  cbn [traceImage_rows].
  assert (Hlt : (y <? height) = true) by (apply Z.ltb_lt; lia).
  rewrite Hlt.
  destruct (row_defined_dec y (Z.to_nat width) 0) as [Hall|(i' & Hi' & Hnone')].
  - destruct (traceImage_row_spec y (S (Z.to_nat width)) 0 calls)
      as (lrow & Hrow & _); [lia|lia|intros k Hk; apply Hall; lia|].
    rewrite Hrow. rewrite (uint32_succ_small y height) by lia.
    apply IH; [lia|lia|].
    exists i, j. split; [exact Hi|]. split; [|exact Hnone].
    destruct (Z.eq_dec j y) as [->|Hne]; [|lia].
    exfalso. apply (Hall i); [lia|exact Hnone].
  - rewrite (traceImage_row_undefined y (S (Z.to_nat width)) 0 calls);
      [reflexivity|lia|lia|].
    exists i'. split; [lia|exact Hnone'].
Qed.

(** X3. For an image of [width] by [height] pixels, when the radiance of
    every pixel is defined, [traceImage] returns after calling [SetPixel]
    exactly [width * height] times, once for each pixel, row after row and
    left to right within a row: the call number [y * width + x] (from [0])
    is [SetPixel(x, y, Lo)] with [Lo] the radiance [pathTraceRay] computes
    for the camera ray of [(x, y)]. *)
Theorem traceImage_sets_every_pixel_once :
  (forall x y, 0 <= x < width -> 0 <= y < height ->
     pixel_radiance scene Materials width height x y <> None) ->
  exists calls,
    traceImage scene Materials width height = Some (Pixels calls) /\
    List.length calls = Z.to_nat (width * height) /\
    (forall x y, 0 <= x < width -> 0 <= y < height ->
       exists Lo, pixel_radiance scene Materials width height x y = Some Lo /\
                  nth_error calls (Z.to_nat (y * width + x)) = Some (x, y, Lo)).
Proof.
  intros Hdef.
  destruct (traceImage_rows_spec (S (Z.to_nat height)) 0 [])
    as (l & Hrun & Hlen & Hnth);
    [lia|lia|intros i j Hi Hj; apply Hdef; lia|].
  exists l. split; [exact Hrun|]. split.
  - rewrite Hlen. f_equal. lia.
  - intros x y Hx Hy. destruct (Hnth x y Hx) as (Lo & HLo & Hi); [lia|].
    exists Lo. split; [exact HLo|].
    replace (y * width + x) with ((y - 0) * width + x) by lia. exact Hi.
Qed.

(** X4. When the camera ray of some pixel of the image hits a surface whose
    id is not an index of [Materials], [traceImage] runs into the undefined
    behaviour of [Materials[ray.geomID]] in [shade]: the frame is
    undefined. *)
Theorem traceImage_undefined_pixel (x y : Z) :
  0 <= x < width -> 0 <= y < height ->
  pixel_radiance scene Materials width height x y = None ->
  traceImage scene Materials width height = Some FrameUndefined.
Proof.
  intros Hx Hy Hnone. unfold traceImage.
  apply traceImage_rows_undefined; [lia|lia|].
  exists x, y. split; [exact Hx|]. split; [lia|exact Hnone].
Qed.


End FrameFacts.

(** ** The kernel [simple] *)

Section Kernel.
Context {F : Type} `{Scalar F}.


Lemma array_set_some (a : list F) (i : nat) (x : F) (b : list F) :
  array_set a i x = Some b ->
  (i < List.length a)%nat /\ List.length b = List.length a.
Proof.
  revert i b. induction a as [|y a IH]; intros i b Hset;
    [destruct i; discriminate|].
  destruct i as [|i]; cbn [array_set] in Hset.
  - injection Hset as <-. cbn [List.length]. lia.
  - destruct (array_set a i x) as [b'|] eqn:Hb; [|discriminate].
    injection Hset as <-. destruct (IH _ _ Hb) as [Hi Hl].
    cbn [List.length]. lia.
Qed.


(** The passes that ran to the end stayed inside both arrays. *)
Lemma simple_from_length (n : nat) :
  forall index vin vout out,
    simple_from n index vin vout = Some out ->
    (index + n <= List.length vin)%nat /\ (index + n <= List.length vout)%nat
    \/ n = O.
Proof.
  induction n as [|n IH]; intros index vin vout out Hrun; [right; reflexivity|].
  left. cbn [simple_from] in Hrun.
  destruct (nth_error vin index) as [v|] eqn:Hv; [|discriminate].
  assert (Hi : (index < List.length vin)%nat)
    by (apply nth_error_Some; congruence).
  destruct (array_set vout index (simple_elem v)) as [vout'|] eqn:Hset;
    [|discriminate].
  destruct (array_set_some _ _ _ _ Hset) as [Ho Hlen].
  destruct (IH _ _ _ _ Hrun) as [[Hin Hout]| ->]; lia.
Qed.


(** X7. Called with a [count] larger than one of the two arrays, the kernel
    reads or writes past its end. *)
Theorem simple_out_of_bounds (vin vout : list F) (count : Z) :
  (Z.of_nat (List.length vin) < count \/ Z.of_nat (List.length vout) < count) ->
  simple vin vout count = None.
Proof.
  intros Hlong. unfold simple.
  destruct (simple_from (Z.to_nat count) 0 vin vout) as [out|] eqn:Hrun;
    [|reflexivity].
  destruct (simple_from_length _ _ _ _ _ Hrun) as [[Hin Hout]|Hz]; lia.
Qed.

End Kernel.

(** ** The kernel and the camera on binary32 *)

Section Binary32Kernel.
Local Open Scope Z_scope.

Lemma shr_1_nonneg (mrs : shr_record) :
  0 <= shr_m mrs -> 0 <= shr_m (shr_1 mrs).
Proof.
  intros Hm. rewrite shr_1_div2, Z.div2_spec by exact Hm.
  apply Z.shiftr_nonneg, Hm.
Qed.







(** The third row of the camera matrix applied to a point of the image
    plane and to the origin: the difference is [-1.0f] or NaN. *)
Lemma camera_view_axis (Px Py : spec_float) :
  let row2 : spec_float * spec_float * spec_float * spec_float :=
    (lit 0 1, lit 0 1, lit 10 1, lit 45 1) in
  let z := fsub (dot_row row2 (Vec3 Px Py (lit (-10) 1)))
                (dot_row row2 (Vec3 (lit 0 1) (lit 0 1) (lit 0 1))) in
  z = S754_finite true 8388608 (-23) \/ z = S754_nan.
Proof.
  cbv zeta.
  destruct Px as [sx|sx| |sx mx ex], Py as [sy|sy| |sy my ey];
    try (destruct sx); try (destruct sy);
    first [left; reflexivity|right; reflexivity].
Qed.

(** X9. On binary32, for every pixel, every image size and every libm, the
    camera ray starts at [(0, 0.8f, 4.5f)] exactly, and the [z] component
    of its direction is [-1.0f] or NaN, never another value. *)
Theorem makeCameraRay_origin_and_axis (lm : Libm spec_float)
    (x y width height : Z) :
  let r : RTCRay spec_float := makeCameraRay x y width height in
  org r = Vec3 (S754_zero false) (S754_finite false 13421773 (-24))
               (S754_finite false 9437184 (-21)) /\
  (vz (dir r) = S754_finite true 8388608 (-23) \/ vz (dir r) = S754_nan).
Proof.
  cbv zeta. split; [reflexivity|].
  unfold makeCameraRay, makeRay, translate. cbn [dir vz].
  match goal with
  | |- context [dot_row _ (Vec3 ?px ?py (lit (-10) 1))] =>
      exact (camera_view_axis px py)
  end.
Qed.

End Binary32Kernel.

(** ** Closed runs on binary32 *)

Section Binary32Runs.
Local Open Scope Z_scope.

Local Abbreviation libm := Binary32.libm_exact_points.
Local Abbreviation up := (world_up : vec3 spec_float).

Lemma closed_scene_covered : materials_cover (scene_closed up) [grey80].
Proof. intros r. right. cbn. discriminate. Qed.



(** A frame of 2 by 2 pixels of the closed grey room. *)
Lemma traceImage_sets_every_pixel_once_witness :
  exists calls : list (Z * Z * vec3 spec_float),
    @traceImage _ _ libm (scene_closed up) [grey80] 2 2 = Some (Pixels calls) /\
    List.length calls = 4%nat.
Proof.
  destruct (@traceImage_sets_every_pixel_once _ _ libm (scene_closed up)
              [grey80] 2 2 ltac:(lia) ltac:(lia))
    as (calls & Hrun & Hlen & _).
  - intros x y _ _. apply pathTraceRay_covered, closed_scene_covered.
  - exists calls. split; [exact Hrun|exact Hlen].
Defined.

(** The same room with an empty material table. *)
Lemma traceImage_undefined_pixel_witness :
  @traceImage _ _ libm (scene_closed up) [] 2 2 = Some FrameUndefined.
Proof.
  apply (@traceImage_undefined_pixel _ _ libm (scene_closed up) [] 2 2
           ltac:(lia) ltac:(lia) 1 1); [lia|lia|reflexivity].
Defined.



(** The same arrays with a [count] of [6]. *)
Lemma simple_out_of_bounds_witness :
  simple (inFloats : list spec_float) outFloats 6 = None.
Proof.
  apply (simple_out_of_bounds (inFloats : list spec_float) outFloats 6).
  left. reflexivity.
Defined.

End Binary32Runs.
